(** * Supersonic media providers: adapters and aggregate operations

    A shallow embedding of
      - [backend/mediaprovider] (the domain model),
      - [backend/mediaprovider/jellyfin/jellyfinmediaprovider.go]
        (record adapters, [GetFavorites], [GetGenres], [SetFavorite],
        the playlist, album and similar-track operations),
      - [backend/mediaprovider/subsonic/searchall.go]
        ([SearchAll], [allTermsMatch], [mergeResults]),
    followed by the properties established about them.

    Conventions.  A Go [int]/[int64] is a [Z]; the integer division of Go
    truncates towards zero and is [Z.quot].  A Go pointer [*T] is a
    [ptr T], that is an [option T] whose [None] is [nil]; dereferencing
    [nil] panics.  A computation that may panic lives in the monad [go].
    A Go [error] is a [option Err] whose [None] is the [nil] error. *)

From Stdlib Require Import ZArith Lia Ascii String DecimalString.
From stdpp Require Import base option list gmap strings.

Open Scope Z_scope.
Open Scope string_scope.
Open Scope list_scope.

(* ===================================================================== *)
(** ** Go runtime: panics, pointers, errors *)
(* ===================================================================== *)

(** The outcome of running a piece of Go code to completion. *)
Inductive go (A : Type) : Type :=
| Ret (a : A)
| Panic.
Arguments Ret {A} a.
Arguments Panic {A}.

Definition go_bind {A B} (m : go A) (k : A -> go B) : go B :=
  match m with
  | Ret a => k a
  | Panic => Panic
  end.

Global Instance go_mret : MRet go := @Ret.
Global Instance go_mbind : MBind go := fun A B k m => go_bind m k.

(** [*T]: [None] is the nil pointer. *)
Definition ptr (A : Type) : Type := option A.

(** [p.field] on a pointer: a nil dereference panics. *)
Definition deref {A} (p : ptr A) : go A :=
  match p with
  | Some a => Ret a
  | None => Panic
  end.

(** The text carried by an [error] value. *)
Definition Err : Type := string.

(** A slice of pointers none of which is nil. *)
Definition no_nil {A} (l : list (ptr A)) : Prop := Forall is_Some l.

(** A slice whose being nil can be observed ([s != nil]): [None] is the
    nil slice, [Some []] an empty slice that is not nil.  Where the code
    only ranges over a slice or takes its length, the slice is a [list]. *)
Definition slice (A : Type) : Type := option (list A).

Definition elems {A} (s : slice A) : list A :=
  match s with
  | Some l => l
  | None => []
  end.
Definition is_nil {A} (s : slice A) : bool :=
  match s with
  | Some _ => false
  | None => true
  end.
Definition len {A} (s : slice A) : Z := Z.of_nat (length (elems s)).

(** Two's complement reading of an [int64] result. *)
Definition int64 (z : Z) : Z := (z + 2 ^ 63) mod 2 ^ 64 - 2 ^ 63.

(** Monadic map over a list, left to right: the loop
    [for i, t := range ts { result[i] = f(t) }]. *)
Fixpoint go_map {A B} (f : A -> go B) (l : list A) : go (list B) :=
  match l with
  | [] => Ret []
  | a :: l' => b ← f a; bs ← go_map f l'; Ret (b :: bs)
  end.

(** Monadic filter over a list, left to right. *)
Fixpoint go_filter {A} (test : A -> go bool) (l : list A) : go (list A) :=
  match l with
  | [] => Ret []
  | a :: l' =>
      keep ← test a;
      rest ← go_filter test l';
      Ret (if (keep : bool) then a :: rest else rest)
  end.

(** Goroutines that are started together and joined by [wg.Wait()], each
    of which touches variables that no other one touches: [sched] is the
    order in which they happen to run, [body g] what goroutine [g] does to
    the variables they share.  A panic in any of them ends the program. *)
Fixpoint run_goroutines {G S} (body : G -> S -> go S) (sched : list G) (s : S)
  : go S :=
  match sched with
  | [] => Ret s
  | g :: sched' => s' ← body g s; run_goroutines body sched' s'
  end.

(* ===================================================================== *)
(** ** Package [strings] and [strconv] of the Go library

    Strings are sequences of bytes.  [ToLower] and [Fields] below are the
    library functions on strings that hold no byte from [utf8.RuneSelf]
    (0x80) on, the strings of [isASCII]: there [ToLower] maps the letters
    [A]-[Z] and leaves every other byte alone, and [Fields] splits around
    the six ASCII white space bytes.  On any other string the library
    decodes the runes and applies the Unicode tables, which are not part
    of this model; what is proved from the values of [ToLower] and
    [Fields] is therefore stated for strings of [isASCII].  [HasPrefix],
    [Contains] and [Join] work on bytes for every string. *)
(* ===================================================================== *)

Module strings.

(** No byte of [s] is [utf8.RuneSelf] (0x80) or above. *)
Fixpoint isASCII (s : string) : bool :=
  match s with
  | EmptyString => true
  | String c s' => (nat_of_ascii c <? 128)%nat && isASCII s'
  end.

Definition lower_ascii (c : ascii) : ascii :=
  let n := nat_of_ascii c in
  if ((65 <=? n)%nat && (n <=? 90)%nat)%bool then ascii_of_nat (n + 32) else c.

Fixpoint ToLower (s : string) : string :=
  match s with
  | EmptyString => EmptyString
  | String c s' => String (lower_ascii c) (ToLower s')
  end.

(** ['\t', '\n', '\v', '\f', '\r', ' '] *)
Definition isSpace (c : ascii) : bool :=
  let n := nat_of_ascii c in
  ((9 <=? n)%nat && (n <=? 13)%nat)%bool || (n =? 32)%nat.

Definition push_field (w : string) (ws : list string) : list string :=
  match w with
  | EmptyString => ws
  | _ => w :: ws
  end.

(** [fields_from s] is the pair of the field that starts at the head of
    [s] (empty when [s] starts with white space) and of the fields that
    follow it. *)
Fixpoint fields_from (s : string) : string * list string :=
  match s with
  | EmptyString => (EmptyString, [])
  | String c s' =>
      let '(w, ws) := fields_from s' in
      if isSpace c then (EmptyString, push_field w ws) else (String c w, ws)
  end.

(** [strings.Fields]: the maximal runs of bytes that are not white
    space, in order. *)
Definition Fields (s : string) : list string :=
  let '(w, ws) := fields_from s in push_field w ws.

Fixpoint HasPrefix (s prefix : string) {struct prefix} : bool :=
  match prefix, s with
  | EmptyString, _ => true
  | String _ _, EmptyString => false
  | String a p', String b s' => if Ascii.eqb a b then HasPrefix s' p' else false
  end.

(** [strings.Contains s substr]: [substr] occurs in [s]. *)
Fixpoint Contains (s substr : string) : bool :=
  HasPrefix s substr ||
  match s with
  | EmptyString => false
  | String _ s' => Contains s' substr
  end.

(** [strings.Join elems sep] *)
Definition Join (elems : list string) (sep : string) : string :=
  String.concat sep elems.

End strings.

Module strconv.
(** [strconv.Itoa]: decimal notation, with a leading [-] below zero. *)
Definition Itoa (i : Z) : string := NilZero.string_of_int (Z.to_int i).
End strconv.

(* ===================================================================== *)
(** ** Package [mediaprovider]: the domain model *)
(* ===================================================================== *)

Module mediaprovider.

Module Album.
Record t := mk {
  ID : string;
  CoverArtID : string;
  Name : string;
  Duration : Z;
  ArtistIDs : list string;
  ArtistNames : list string;
  Year : Z;
  Genres : list string;
  TrackCount : Z;
  Favorite : bool
}.
(** [&mediaprovider.Album{}] *)
Definition zero : t := mk "" "" "" 0 [] [] 0 [] 0 false.
End Album.

Module Artist.
Record t := mk {
  ID : string;
  CoverArtID : string;
  Name : string;
  Favorite : bool;
  AlbumCount : Z
}.
Definition zero : t := mk "" "" "" false 0.
End Artist.

Module Genre.
Record t := mk {
  Name : string;
  AlbumCount : Z;
  TrackCount : Z
}.
End Genre.

Module Track.
Record t := mk {
  ID : string;
  CoverArtID : string;
  ParentID : string;
  Name : string;
  Duration : Z;
  TrackNumber : Z;
  DiscNumber : Z;
  Genre : string;
  ArtistIDs : list string;
  ArtistNames : list string;
  Album : string;
  AlbumID : string;
  Year : Z;
  Rating : Z;
  Favorite : bool;
  Size : Z;
  PlayCount : Z;
  FilePath : string;
  BitRate : Z
}.
End Track.

Module Playlist.
Record t := mk {
  ID : string;
  CoverArtID : string;
  Name : string;
  Description : string;
  Public : bool;
  Owner : string;
  Duration : Z;
  TrackCount : Z
}.
Definition zero : t := mk "" "" "" "" false "" 0 0.
End Playlist.

Inductive ContentType : Set :=
| ContentTypeAlbum
| ContentTypeArtist
| ContentTypeTrack
| ContentTypePlaylist
| ContentTypeGenre.

Module SearchResult.
Record t := mk {
  Name : string;
  ID : string;
  CoverID : string;
  Type_ : ContentType;  (* the field [Type] *)
  Size : Z;
  ArtistName : string
}.
End SearchResult.

Module Favorites.
Record t := mk {
  Albums : slice (ptr Album.t);
  Artists : slice (ptr Artist.t);
  Tracks : slice (ptr Track.t)
}.
(** [var favorites mediaprovider.Favorites] *)
Definition zero : t := mk None None None.
End Favorites.

Module RatingFavoriteParameters.
Record t := mk {
  AlbumIDs : list string;
  ArtistIDs : list string;
  TrackIDs : list string
}.
End RatingFavoriteParameters.

End mediaprovider.

(* ===================================================================== *)
(** ** Package [sharedutil] *)
(* ===================================================================== *)

Module sharedutil.
Section sharedutil.

(** Whether [MapSlice] answers the nil slice when it has no element to
  return, given whether its argument is nil. *)
Variable nil_when_empty : bool -> bool.

(** Modelled from the spec: [sharedutil.MapSlice] is not among the
  sources.  The adapters are applied to each record of a backend list,
  one result per record and in the order of the list; a panic of [f]
  is a panic of the call.  Whether an empty result is nil is left to
  [nil_when_empty]. *)
Definition MapSlice {A B} (ts : slice A) (f : A -> go B) : go (slice B) :=
l ← go_map f (elems ts);
Ret (match l with
     | [] => if nil_when_empty (is_nil ts) then None else Some []
     | _ :: _ => Some l
     end).

(** Modelled from the spec: [sharedutil.FilterSlice] is not among the
  sources.  It is the client-side filter over a full backend list: the
  elements that pass [test], in the order of the list. *)
Definition FilterSlice {A} (ss : list A) (test : A -> go bool) : go (list A) :=
go_filter test ss.

End sharedutil.
End sharedutil.

(* ===================================================================== *)
(** ** Package [jellyfin] of the client library: the records read here *)
(* ===================================================================== *)

Module jellyfin.

Module NameID.
Record t := mk { Name : string; ID : string }.
End NameID.

Module UserData.
Record t := mk { Rating : Z; IsFavorite : bool; PlayCount : Z }.
End UserData.

Module MediaSource.
Record t := mk { Path : string; Size : Z; Bitrate : Z }.
End MediaSource.

Module Song.
Record t := mk {
  Id : string;
  Name : string;
  Album : string;
  AlbumID : string;
  Artists : list NameID.t;
  ImageTags_Primary : string;  (* [ImageTags.Primary] *)
  RunTimeTicks : Z;
  IndexNumber : Z;
  DiscNumber : Z;
  ProductionYear : Z;
  Genres : list string;
  UserData : UserData.t;
  MediaSources : list MediaSource.t
}.
End Song.

Module Album.
Record t := mk {
  ID : string;
  Name : string;
  Artists : list NameID.t;
  RunTimeTicks : Z;
  Year : Z;
  ChildCount : Z;
  Genres : list string;
  Overview : string;
  UserData : UserData.t
}.
End Album.

Module Artist.
Record t := mk {
  ID : string;
  Name : string;
  AlbumCount : Z;
  Overview : string;
  UserData : UserData.t
}.
End Artist.

Module Playlist.
Record t := mk {
  ID : string;
  Name : string;
  Overview : string;
  SongCount : Z;
  RunTimeTicks : Z
}.
End Playlist.

(** The part of [QueryOpts] that the embedded operations set. *)
Module QueryOpts.
Record t := mk {
  Paging_Limit : Z;
  Filter_ParentID : string;
  Filter_ArtistID : string;
  Filter_Genres : list string;
  Filter_Favorite : bool
}.
(** [var opts jellyfin.QueryOpts] *)
Definition zero : t := mk 0 "" "" [] false.
Definition with_Favorite (o : t) (b : bool) : t :=
  mk (Paging_Limit o) (Filter_ParentID o) (Filter_ArtistID o) (Filter_Genres o) b.
End QueryOpts.

End jellyfin.

(* ===================================================================== *)
(** ** [jellyfinmediaprovider.go]: the record adapters *)
(* ===================================================================== *)

Module JellyfinProvider.
Import mediaprovider.

Definition cacheValidDurationSeconds : Z := 60.

(** The loop shared by [toTrack] and [fillAlbum]:
    [for _, a := range artists { artistIDs = append(artistIDs, a.ID);
                                  artistNames = append(artistNames, a.Name) }],
    from two nil slices.  The result is the pair [(artistIDs, artistNames)]. *)
Definition appendArtists (artists : list jellyfin.NameID.t)
  : list string * list string :=
  fold_left
    (fun acc a => (acc.1 ++ [jellyfin.NameID.ID a], acc.2 ++ [jellyfin.NameID.Name a]))
    artists ([], []).

Definition toTrack (ch : ptr jellyfin.Song.t) : go (ptr Track.t) :=
  match ch with
  | None => Ret None
  | Some ch =>
      let '(artistIDs, artistNames) := appendArtists (jellyfin.Song.Artists ch) in
      let coverArtID :=
        if String.eqb (jellyfin.Song.ImageTags_Primary ch) ""
        then jellyfin.Song.AlbumID ch
        else jellyfin.Song.Id ch in
      let '(filePath, size, bitRate) :=
        match jellyfin.Song.MediaSources ch with
        | m :: _ =>
            (jellyfin.MediaSource.Path m,
             jellyfin.MediaSource.Size m,
             Z.quot (jellyfin.MediaSource.Bitrate m) 1000)
        | [] => ("", 0, 0)
        end in
      Ret (Some {|
        Track.ID := jellyfin.Song.Id ch;
        Track.CoverArtID := coverArtID;
        Track.ParentID := jellyfin.Song.AlbumID ch;
        Track.Name := jellyfin.Song.Name ch;
        Track.Duration := Z.quot (jellyfin.Song.RunTimeTicks ch) 10000000;
        Track.TrackNumber := jellyfin.Song.IndexNumber ch;
        Track.DiscNumber := jellyfin.Song.DiscNumber ch;
        Track.Genre := "";   (* //Genre: ch.Genres, *)
        Track.ArtistIDs := artistIDs;
        Track.ArtistNames := artistNames;
        Track.Album := jellyfin.Song.Album ch;
        Track.AlbumID := jellyfin.Song.AlbumID ch;
        Track.Year := jellyfin.Song.ProductionYear ch;
        Track.Rating := jellyfin.UserData.Rating (jellyfin.Song.UserData ch);
        Track.Favorite := jellyfin.UserData.IsFavorite (jellyfin.Song.UserData ch);
        Track.Size := size;
        Track.PlayCount := jellyfin.UserData.PlayCount (jellyfin.Song.UserData ch);
        Track.FilePath := filePath;
        Track.BitRate := bitRate
      |})
  end.

(** [fillArtist a artist] writes the fields of [*artist] from [*a]; the
    result is the record [*artist] afterwards. *)
Definition fillArtist (a : ptr jellyfin.Artist.t) (artist : Artist.t) : go Artist.t :=
  a ← deref a;
  Ret {|
    Artist.AlbumCount := jellyfin.Artist.AlbumCount a;
    Artist.Favorite := jellyfin.UserData.IsFavorite (jellyfin.Artist.UserData a);
    Artist.ID := jellyfin.Artist.ID a;
    Artist.Name := jellyfin.Artist.Name a;
    Artist.CoverArtID := jellyfin.Artist.ID a
  |}.

Definition toArtist (a : ptr jellyfin.Artist.t) : go (ptr Artist.t) :=
  art ← fillArtist a Artist.zero;
  Ret (Some art).

Definition fillAlbum (a : ptr jellyfin.Album.t) (album : Album.t) : go Album.t :=
  a ← deref a;
  let '(artistIDs, artistNames) := appendArtists (jellyfin.Album.Artists a) in
  Ret {|
    Album.ID := jellyfin.Album.ID a;
    Album.CoverArtID := jellyfin.Album.ID a;
    Album.Name := jellyfin.Album.Name a;
    Album.Duration := Z.quot (jellyfin.Album.RunTimeTicks a) 10000000;
    Album.ArtistIDs := artistIDs;
    Album.ArtistNames := artistNames;
    Album.Year := jellyfin.Album.Year a;
    Album.TrackCount := jellyfin.Album.ChildCount a;
    Album.Genres := jellyfin.Album.Genres a;
    Album.Favorite := jellyfin.UserData.IsFavorite (jellyfin.Album.UserData a)
  |}.

Definition toAlbum (a : ptr jellyfin.Album.t) : go (ptr Album.t) :=
  album ← fillAlbum a Album.zero;
  Ret (Some album).

(** [LoggedInUser] is the answer of [j.client.LoggedInUser()]. *)
Definition fillPlaylist (LoggedInUser : string)
    (p : ptr jellyfin.Playlist.t) (pl : Playlist.t) : go Playlist.t :=
  p ← deref p;
  Ret {|
    Playlist.Name := jellyfin.Playlist.Name p;
    Playlist.ID := jellyfin.Playlist.ID p;
    Playlist.CoverArtID := jellyfin.Playlist.ID p;
    Playlist.Description := jellyfin.Playlist.Overview p;
    Playlist.TrackCount := jellyfin.Playlist.SongCount p;
    Playlist.Duration := Z.quot (jellyfin.Playlist.RunTimeTicks p) 1000000;
    Playlist.Owner := LoggedInUser;
    Playlist.Public := false
  |}.

Definition toPlaylist (LoggedInUser : string)
    (p : ptr jellyfin.Playlist.t) : go (ptr Playlist.t) :=
  pl ← fillPlaylist LoggedInUser p Playlist.zero;
  Ret (Some pl).

(* ------------------------------------------------------------------- *)
(** *** [GetFavorites] *)

(** The list endpoints of [jellyfin.Client] and the logged-in user.  One
    call of [GetFavorites] asks each endpoint once, so an answer per
    request describes the backend. *)
Record Client := {
  GetAlbums : jellyfin.QueryOpts.t -> slice (ptr jellyfin.Album.t) * option Err;
  GetAlbumArtists : jellyfin.QueryOpts.t -> slice (ptr jellyfin.Artist.t) * option Err;
  GetSongs : jellyfin.QueryOpts.t -> slice (ptr jellyfin.Song.t) * option Err;
  LoggedInUser : string
}.

(** The three goroutines of [GetFavorites], in the order of the source. *)
Inductive favGoroutine : Set := favAlbums | favArtists | favTracks.

Section GetFavorites.
Variable nil_when_empty : bool -> bool.
Variable client : Client.

Definition favOpts : jellyfin.QueryOpts.t :=
  jellyfin.QueryOpts.with_Favorite jellyfin.QueryOpts.zero true.

Definition favBody (g : favGoroutine) (favorites : Favorites.t) : go Favorites.t :=
  match g with
  | favAlbums =>
      let '(al, err) := GetAlbums client favOpts in
      if bool_decide (err = None) && (0 <? len al)%Z then
        r ← sharedutil.MapSlice nil_when_empty al toAlbum;
        Ret (Favorites.mk r (Favorites.Artists favorites) (Favorites.Tracks favorites))
      else Ret favorites
  | favArtists =>
      let '(ar, err) := GetAlbumArtists client favOpts in
      if bool_decide (err = None) && (0 <? len ar)%Z then
        r ← sharedutil.MapSlice nil_when_empty ar toArtist;
        Ret (Favorites.mk (Favorites.Albums favorites) r (Favorites.Tracks favorites))
      else Ret favorites
  | favTracks =>
      let '(tr, err) := GetSongs client favOpts in
      if bool_decide (err = None) && (0 <? len tr)%Z then
        r ← sharedutil.MapSlice nil_when_empty tr toTrack;
        Ret (Favorites.mk (Favorites.Albums favorites) (Favorites.Artists favorites) r)
      else Ret favorites
  end.

(** [sched] is the order in which the three goroutines run. *)
Definition GetFavorites (sched : list favGoroutine)
  : go (Favorites.t * option Err) :=
  favorites ← run_goroutines favBody sched Favorites.zero;
  Ret (favorites, None).

End GetFavorites.

(** A schedule runs each of the three goroutines once. *)
Definition favSchedule (sched : list favGoroutine) : Prop :=
  sched ≡ₚ [favAlbums; favArtists; favTracks].

(* ------------------------------------------------------------------- *)
(** *** [GetGenres] and the genre cache *)

(** The fields of [jellyfinMediaProvider] that [GetGenres] reads and
    writes. *)
Module jellyfinMediaProvider.
Record t := mk {
  genresCached : slice (ptr Genre.t);
  genresCachedAt : Z  (* unix *)
}.
End jellyfinMediaProvider.

(** [genresCached: make([]*mediaprovider.Genre, 0)], [genresCachedAt] zero. *)
Definition newJellyfinMediaProvider : jellyfinMediaProvider.t :=
  jellyfinMediaProvider.mk (Some []) 0.

(** What surrounds the provider: the reading of [time.Now().Unix()] and
    the number of calls of [client.GetGenres] made so far. *)
Record World := { now : Z; fetches : nat }.

Section GetGenres.
Variable nil_when_empty : bool -> bool.

(** The backend: for the [n]-th call of [client.GetGenres], the seconds
    that pass during the call and its answer. *)
Variable backend : nat -> Z * (slice jellyfin.NameID.t * option Err).

Definition client_GetGenres (w : World)
  : (slice jellyfin.NameID.t * option Err) * World :=
  let '(d, r) := backend (fetches w) in
  (r, {| now := now w + d; fetches := S (fetches w) |}).

Definition toGenre (g : jellyfin.NameID.t) : go (ptr Genre.t) :=
  Ret (Some {|
    Genre.Name := jellyfin.NameID.Name g;
    Genre.AlbumCount := -1;
    Genre.TrackCount := -1
  |}).

Definition GetGenres (j : jellyfinMediaProvider.t) (w : World)
  : go ((slice (ptr Genre.t) * option Err) * jellyfinMediaProvider.t * World) :=
  if negb (is_nil (jellyfinMediaProvider.genresCached j))
     && (int64 (now w - jellyfinMediaProvider.genresCachedAt j)
           <? cacheValidDurationSeconds)%Z
  then Ret ((jellyfinMediaProvider.genresCached j, None), j, w)
  else
    let '((g, err), w1) := client_GetGenres w in
    match err with
    | Some e => Ret ((None, Some e), j, w1)
    | None =>
        cached ← sharedutil.MapSlice nil_when_empty g toGenre;
        Ret ((cached, None), jellyfinMediaProvider.mk cached (now w1), w1)
    end.

End GetGenres.

(* ------------------------------------------------------------------- *)
(** *** [SetFavorite]: batches of goroutines around a shared [err] *)

(** One call of [client.SetFavorite] as the backend saw it. *)
Record Call := {
  call_id : string;
  call_favorite : bool;
  call_err : option Err
}.

(** A goroutine of a batch, by where it stands in its body:
    [GStart idx]   started with argument [idx], nothing done yet;
    [GCalled e]    [newErr := j.client.SetFavorite(allIDs[idx], favorite)]
                   has returned [e];
    [GWrite e]     [err == nil && newErr != nil] was found true, the
                   assignment [err = newErr] is still to come;
    [GDone]        [wg.Done()] has been called. *)
Inductive goroutine : Type :=
| GStart (idx : nat)
| GCalled (newErr : option Err)
| GWrite (newErr : Err)
| GDone.

Definition finished (g : goroutine) : bool :=
  match g with
  | GDone => true
  | _ => false
  end.

(** The variable [err] of [SetFavorite], the calls the backend has
    received so far (oldest first), and the goroutines of the running
    batch. *)
Record machine := {
  m_err : option Err;
  m_calls : list Call;
  m_pool : list goroutine
}.

Section SetFavorite.
Local Open Scope nat_scope.

(** The backend: its answer to a call, given the calls it has
    received before. *)
Variable respond : list Call -> string -> bool -> option Err.

Variable allIDs : list string.
Variable favorite : bool.

(** One step of goroutine number [k] of the pool; a goroutine that has
    finished, or a number outside the pool, leaves everything as it is. *)
Definition step (k : nat) (m : machine) : go machine :=
  match m_pool m !! k with
  | Some (GStart idx) =>
      match allIDs !! idx with
      | None => Panic   (* index out of range *)
      | Some id =>
          let newErr := respond (m_calls m) id favorite in
          Ret {| m_err := m_err m;
                 m_calls := m_calls m ++ [Build_Call id favorite newErr];
                 m_pool := <[k := GCalled newErr]> (m_pool m) |}
      end
  | Some (GCalled newErr) =>
      match m_err m, newErr with
      | None, Some e =>
          Ret {| m_err := m_err m; m_calls := m_calls m;
                 m_pool := <[k := GWrite e]> (m_pool m) |}
      | _, _ =>
          Ret {| m_err := m_err m; m_calls := m_calls m;
                 m_pool := <[k := GDone]> (m_pool m) |}
      end
  | Some (GWrite e) =>
      Ret {| m_err := Some e; m_calls := m_calls m;
             m_pool := <[k := GDone]> (m_pool m) |}
  | Some GDone | None => Ret m
  end.

(** The numbers of the goroutines that have not finished. *)
Fixpoint runnableFrom (k : nat) (pool : list goroutine) : list nat :=
  match pool with
  | [] => []
  | g :: pool' =>
      if finished g then runnableFrom (S k) pool'
      else k :: runnableFrom (S k) pool'
  end.

Definition runnable (pool : list goroutine) : list nat :=
  runnableFrom 0 pool.

(** The scheduler: [pick t] chooses, at step [t], among the goroutines
    that can run.  [wg.Wait()] returns once none is left; [fuel] bounds
    the number of steps. *)
Fixpoint run (fuel : nat) (pick : nat -> nat) (t : nat) (m : machine)
  : go machine :=
  match fuel with
  | 0 => Ret m
  | S fuel' =>
      match runnable (m_pool m) with
      | [] => Ret m
      | k0 :: ks =>
          m' ← step (nth (pick t mod length (k0 :: ks)) (k0 :: ks) k0) m;
          run fuel' pick (S t) m'
      end
  end.

(** The arguments of the goroutines that [batchSetFavorite(offs, wg)]
    starts: [for i := 0; i < batchSize && offs+i < len(allIDs); i++],
    with [n] the iterations that [i < batchSize] still allows. *)
Fixpoint batchIndices (n i offs : nat) : list nat :=
  match n with
  | 0 => []
  | S n' =>
      if offs + i <? length allIDs
      then (offs + i) :: batchIndices n' (S i) offs
      else []
  end.

Definition batchSize : nat := 5.

(** [batchSetFavorite(offs, &wg); wg.Wait()]: every goroutine goes
    through at most three steps. *)
Definition batchSetFavorite (pick : nat -> nat) (offs : nat)
    (err : option Err) (calls : list Call) : go machine :=
  let pool := map GStart (batchIndices batchSize 0 offs) in
  run (3 * length pool) pick 0
      {| m_err := err; m_calls := calls; m_pool := pool |}.

(** [for i := 0; i < numBatches; i++ { ... }], with [n] the batches
    still to run. *)
Fixpoint batchLoop (sched : nat -> nat -> nat) (n i : nat)
    (err : option Err) (calls : list Call) : go (option Err * list Call) :=
  match n with
  | 0 => Ret (err, calls)
  | S n' =>
      m ← batchSetFavorite (sched i) (i * batchSize) err calls;
      batchLoop sched n' (S i) (m_err m) (m_calls m)
  end.

(** [int(math.Ceil(float64(n) / float64(d)))].  The conversions and the
    division are exact enough for this to be the ceiling of the exact
    quotient for every [n] below [2^52]. *)
Definition ceilDiv (n d : nat) : nat :=
  if n mod d =? 0 then n / d else S (n / d).

End SetFavorite.

(** [sched i] is the scheduler of batch [i]; [calls] are the calls the
    backend has received before.  The result is the returned error and
    the calls the backend has received at the end. *)
Definition SetFavorite (respond : list Call -> string -> bool -> option Err)
    (sched : nat -> nat -> nat)
    (params : RatingFavoriteParameters.t) (favorite : bool)
    (calls : list Call) : go (option Err * list Call) :=
  let allIDs :=
    RatingFavoriteParameters.AlbumIDs params
    ++ RatingFavoriteParameters.ArtistIDs params
    ++ RatingFavoriteParameters.TrackIDs params in
  let numBatches := ceilDiv (length allIDs) batchSize in
  batchLoop respond allIDs favorite sched numBatches 0%nat None calls.

End JellyfinProvider.

(* ===================================================================== *)
(** * [jellyfinmediaprovider.go]: operations made of several requests

    The backend is seen through the requests it receives: its answer to a
    request may depend on all the requests it has received before, and
    each operation returns, with its result, the requests received at its
    end. *)
(* ===================================================================== *)

Module JellyfinFacade.
Import mediaprovider JellyfinProvider.

(** [mediaprovider.IDAndIndex]: its declaration is not among the sources;
    of its fields only [ID] is read here. *)
Module IDAndIndex.
Record t := mk { ID : string; Index : Z }.
End IDAndIndex.

Module AlbumWithTracks.
Record t := mk {
  Album : Album.t;
  Tracks : slice (ptr Track.t)
}.
End AlbumWithTracks.

Inductive request : Type :=
| ReqGetPlaylistSongs (playlistID : string)
| ReqRemoveSongsFromPlaylist (playlistID : string) (ids : slice string)
| ReqAddSongsToPlaylist (playlistID : string) (trackIDs : list string)
| ReqGetAlbum (albumID : string)
| ReqGetSongs (opts : jellyfin.QueryOpts.t)
| ReqGetAlbums (opts : jellyfin.QueryOpts.t)
| ReqGetSimilarSongs (id : string) (limit : Z).

(** The answers of the backend, each given the requests received before. *)
Record Backend := {
  playlistSongs : list request -> string -> slice (ptr jellyfin.Song.t) * option Err;
  removeSongs : list request -> string -> slice string -> option Err;
  addSongs : list request -> string -> list string -> option Err;
  album : list request -> string -> ptr jellyfin.Album.t * option Err;
  songs : list request -> jellyfin.QueryOpts.t
          -> slice (ptr jellyfin.Song.t) * option Err;
  albums : list request -> jellyfin.QueryOpts.t
           -> slice (ptr jellyfin.Album.t) * option Err;
  similarSongs : list request -> string -> Z
                 -> slice (ptr jellyfin.Song.t) * option Err
}.

Section operations.
Variable nil_when_empty : bool -> bool.
Variable b : Backend.

(** The methods of [j.client]: the answer, and the request recorded. *)
Definition client_GetPlaylistSongs (playlistID : string) (log : list request) :=
  (playlistSongs b log playlistID, log ++ [ReqGetPlaylistSongs playlistID]).
Definition client_RemoveSongsFromPlaylist (playlistID : string) (ids : slice string)
    (log : list request) :=
  (removeSongs b log playlistID ids, log ++ [ReqRemoveSongsFromPlaylist playlistID ids]).
Definition client_AddSongsToPlaylist (playlistID : string) (trackIDs : list string)
    (log : list request) :=
  (addSongs b log playlistID trackIDs, log ++ [ReqAddSongsToPlaylist playlistID trackIDs]).
Definition client_GetAlbum (albumID : string) (log : list request) :=
  (album b log albumID, log ++ [ReqGetAlbum albumID]).
Definition client_GetSongs (opts : jellyfin.QueryOpts.t) (log : list request) :=
  (songs b log opts, log ++ [ReqGetSongs opts]).
Definition client_GetAlbums (opts : jellyfin.QueryOpts.t) (log : list request) :=
  (albums b log opts, log ++ [ReqGetAlbums opts]).
Definition client_GetSimilarSongs (id : string) (limit : Z) (log : list request) :=
  (similarSongs b log id limit, log ++ [ReqGetSimilarSongs id limit]).

(** [func(t *jellyfin.Song) string { return t.Id }] *)
Definition songId (t : ptr jellyfin.Song.t) : go string :=
  t ← deref t; Ret (jellyfin.Song.Id t).

Definition RemovePlaylistTracks (playlistID : string)
    (removeInfo : slice IDAndIndex.t) (log : list request)
  : go (option Err * list request) :=
  ids ← sharedutil.MapSlice nil_when_empty removeInfo
          (fun x => Ret (IDAndIndex.ID x));
  Ret (client_RemoveSongsFromPlaylist playlistID ids log).

Definition ReplacePlaylistTracks (playlistID : string) (trackIDs : list string)
    (log : list request) : go (option Err * list request) :=
  let '((trs, err), log) := client_GetPlaylistSongs playlistID log in
  match err with
  | Some e => Ret (Some e, log)
  | None =>
      idsToDelete ← sharedutil.MapSlice nil_when_empty trs songId;
      let '(err, log) := client_RemoveSongsFromPlaylist playlistID idsToDelete log in
      match err with
      | Some e => Ret (Some e, log)
      | None => Ret (client_AddSongsToPlaylist playlistID trackIDs log)
      end
  end.

(** [opts.Filter.ParentID = albumID] on the zero [QueryOpts]. *)
Definition parentOpts (albumID : string) : jellyfin.QueryOpts.t :=
  jellyfin.QueryOpts.mk 0 albumID "" [] false.

Definition GetAlbum (albumID : string) (log : list request)
  : go ((ptr AlbumWithTracks.t * option Err) * list request) :=
  let '((al, err), log) := client_GetAlbum albumID log in
  match err with
  | Some e => Ret ((None, Some e), log)
  | None =>
      let '((tr, err), log) := client_GetSongs (parentOpts albumID) log in
      match err with
      | Some e => Ret ((None, Some e), log)
      | None =>
          album ← fillAlbum al Album.zero;
          tracks ← sharedutil.MapSlice nil_when_empty tr toTrack;
          Ret ((Some (AlbumWithTracks.mk album tracks), None), log)
      end
  end.

(** [opts.Paging.Limit = 1; opts.Filter.ArtistID = artistID] on the zero
    [QueryOpts]. *)
Definition oneAlbumOpts (artistID : string) : jellyfin.QueryOpts.t :=
  jellyfin.QueryOpts.mk 1 "" artistID [] false.

(** Jellyfin can only get similar songs based on an album *)
Definition GetSimilarTracks (artistID : string) (limit : Z) (log : list request)
  : go ((slice (ptr Track.t) * option Err) * list request) :=
  let '((als, err), log) := client_GetAlbums (oneAlbumOpts artistID) log in
  match err with
  | Some e => Ret ((None, Some e), log)
  | None =>
      match elems als with
      | [] => Ret ((None, None), log)
      | first :: _ =>
          first ← deref first;
          let '((tr, err), log) :=
            client_GetSimilarSongs (jellyfin.Album.ID first) limit log in
          match err with
          | Some e => Ret ((None, Some e), log)
          | None =>
              tracks ← sharedutil.MapSlice nil_when_empty tr toTrack;
              Ret ((tracks, None), log)
          end
      end
  end.

End operations.
End JellyfinFacade.

(* ===================================================================== *)
(** ** Package [subsonic] of the client library: the records read here *)
(* ===================================================================== *)

Module subsonic.

Module IDName.
Record t := mk { ID : string; Name : string }.
End IDName.

Module AlbumID3.
Record t := mk {
  ID : string;
  CoverArt : string;
  Name : string;
  Artist : string;
  Artists : list IDName.t;
  SongCount : Z
}.
End AlbumID3.

Module ArtistID3.
Record t := mk {
  ID : string;
  CoverArt : string;
  Name : string;
  AlbumCount : Z
}.
End ArtistID3.

Module Child.
Record t := mk {
  ID : string;
  CoverArt : string;
  Title : string;
  Artist : string;
  Artists : list IDName.t;
  Duration : Z
}.
End Child.

Module Playlist.
Record t := mk {
  ID : string;
  CoverArt : string;
  Name : string;
  SongCount : Z
}.
End Playlist.

Module Genre.
Record t := mk { Name : string; AlbumCount : Z }.
End Genre.

Module SearchResult3.
Record t := mk {
  Artist : list (ptr ArtistID3.t);
  Album : list (ptr AlbumID3.t);
  Song : list (ptr Child.t)
}.
End SearchResult3.

End subsonic.

(* ===================================================================== *)
(** ** [searchall.go] *)
(* ===================================================================== *)

Module SubsonicProvider.
Import mediaprovider.

(** The three endpoints that [SearchAll] calls, once each. *)
Record Client := {
  Search3 : string -> gmap string string -> ptr subsonic.SearchResult3.t * option Err;
  GetPlaylists : gmap string string -> list (ptr subsonic.Playlist.t) * option Err;
  GetGenres : list (ptr subsonic.Genre.t) * option Err
}.

(** name and terms should be pre-converted to the same case *)
Fixpoint allTermsMatch (name : string) (terms : list string) : bool :=
  match terms with
  | [] => true
  | t :: terms' =>
      if negb (strings.Contains name t) then false
      else allTermsMatch name terms'
  end.

(** select Subsonic single-valued name or join OpenSubsonic multi-valued names *)
Definition getNameString (singleName : string) (idNames : list subsonic.IDName.t)
  : string :=
  if (length idNames =? 0)%nat then singleName
  else strings.Join (map subsonic.IDName.Name idNames) ", ".

Definition albumResult (al : subsonic.AlbumID3.t) : SearchResult.t := {|
  SearchResult.Type_ := ContentTypeAlbum;
  SearchResult.ID := subsonic.AlbumID3.ID al;
  SearchResult.CoverID := subsonic.AlbumID3.CoverArt al;
  SearchResult.Name := subsonic.AlbumID3.Name al;
  SearchResult.ArtistName :=
    getNameString (subsonic.AlbumID3.Artist al) (subsonic.AlbumID3.Artists al);
  SearchResult.Size := subsonic.AlbumID3.SongCount al
|}.

Definition artistResult (ar : subsonic.ArtistID3.t) : SearchResult.t := {|
  SearchResult.Type_ := ContentTypeArtist;
  SearchResult.ID := subsonic.ArtistID3.ID ar;
  SearchResult.CoverID := subsonic.ArtistID3.CoverArt ar;
  SearchResult.Name := subsonic.ArtistID3.Name ar;
  SearchResult.ArtistName := "";
  SearchResult.Size := subsonic.ArtistID3.AlbumCount ar
|}.

Definition trackResult (tr : subsonic.Child.t) : SearchResult.t := {|
  SearchResult.Type_ := ContentTypeTrack;
  SearchResult.ID := subsonic.Child.ID tr;
  SearchResult.CoverID := subsonic.Child.CoverArt tr;
  SearchResult.Name := subsonic.Child.Title tr;
  SearchResult.ArtistName :=
    getNameString (subsonic.Child.Artist tr) (subsonic.Child.Artists tr);
  SearchResult.Size := subsonic.Child.Duration tr
|}.

Definition playlistResult (pl : subsonic.Playlist.t) : SearchResult.t := {|
  SearchResult.Type_ := ContentTypePlaylist;
  SearchResult.ID := subsonic.Playlist.ID pl;
  SearchResult.CoverID := subsonic.Playlist.CoverArt pl;
  SearchResult.Name := subsonic.Playlist.Name pl;
  SearchResult.ArtistName := "";
  SearchResult.Size := subsonic.Playlist.SongCount pl
|}.

Definition genreResult (g : subsonic.Genre.t) : SearchResult.t := {|
  SearchResult.Type_ := ContentTypeGenre;
  SearchResult.ID := subsonic.Genre.Name g;
  SearchResult.CoverID := "";
  SearchResult.Name := subsonic.Genre.Name g;
  SearchResult.ArtistName := "";
  SearchResult.Size := subsonic.Genre.AlbumCount g
|}.

(** [for _, x := range xs { results = append(results, &SearchResult{...}) }]:
    the fields of the new record are read through the pointer [x]. *)
Fixpoint appendResults {A} (entry : A -> SearchResult.t) (xs : list (ptr A))
    (results : list SearchResult.t) : go (list SearchResult.t) :=
  match xs with
  | [] => Ret results
  | x :: xs' => a ← deref x; appendResults entry xs' (results ++ [entry a])
  end.

Definition mergeResults (searchResult : ptr subsonic.SearchResult3.t)
    (matchingPlaylists : list (ptr subsonic.Playlist.t))
    (matchingGenres : list (ptr subsonic.Genre.t)) : go (list SearchResult.t) :=
  sr ← deref searchResult;
  results ← appendResults albumResult (subsonic.SearchResult3.Album sr) [];
  results ← appendResults artistResult (subsonic.SearchResult3.Artist sr) results;
  results ← appendResults trackResult (subsonic.SearchResult3.Song sr) results;
  results ← appendResults playlistResult matchingPlaylists results;
  appendResults genreResult matchingGenres results.

(** The variables that the goroutines of [SearchAll] share. *)
Record searchVars := {
  v_err : option Err;   (* only set by Search3 *)
  v_result : ptr subsonic.SearchResult3.t;
  v_playlists : list (ptr subsonic.Playlist.t);
  v_genres : list (ptr subsonic.Genre.t)
}.

Inductive searchGoroutine : Set := goSearch3 | goPlaylists | goGenres.

(** The request map of the [Search3] call. *)
Definition search3Params (maxResults : Z) : gmap string string :=
  let count := strconv.Itoa (Z.quot maxResults 3) in
  {[ "artistCount" := count; "albumCount" := count; "songCount" := count ]}.

(** The test of both filters, on a candidate reached through a pointer. *)
Definition nameMatches {A} (Name : A -> string) (queryLowerWords : list string)
    (p : ptr A) : go bool :=
  p ← deref p;
  Ret (allTermsMatch (strings.ToLower (Name p)) queryLowerWords).

Section SearchAll.
Variable client : Client.
Variable searchQuery : string.
Variable maxResults : Z.

Definition queryLowerWords : list string :=
  strings.Fields (strings.ToLower searchQuery).

Definition searchBody (g : searchGoroutine) (v : searchVars) : go searchVars :=
  match g with
  | goSearch3 =>
      let '(res, e) := Search3 client searchQuery (search3Params maxResults) in
      match e with
      | Some e => Ret {| v_err := Some e; v_result := v_result v;
                         v_playlists := v_playlists v; v_genres := v_genres v |}
      | None => Ret {| v_err := v_err v; v_result := res;
                       v_playlists := v_playlists v; v_genres := v_genres v |}
      end
  | goPlaylists =>
      let '(p, e) := GetPlaylists client ∅ in
      match e with
      | None =>
          playlists ← sharedutil.FilterSlice p
                        (nameMatches subsonic.Playlist.Name queryLowerWords);
          Ret {| v_err := v_err v; v_result := v_result v;
                 v_playlists := playlists; v_genres := v_genres v |}
      | Some _ => Ret v
      end
  | goGenres =>
      let '(g, e) := GetGenres client in
      match e with
      | None =>
          genres ← sharedutil.FilterSlice g
                     (nameMatches subsonic.Genre.Name queryLowerWords);
          Ret {| v_err := v_err v; v_result := v_result v;
                 v_playlists := v_playlists v; v_genres := genres |}
      | Some _ => Ret v
      end
  end.

(** [results[:maxResults]] when [len(results) > maxResults]: a negative
    bound is a panic. *)
Definition truncate (results : list SearchResult.t) : go (list SearchResult.t) :=
  if (maxResults <? Z.of_nat (length results))%Z then
    if (maxResults <? 0)%Z then Panic
    else Ret (take (Z.to_nat maxResults) results)
  else Ret results.

(** [sched] is the order in which the three goroutines run. *)
Definition SearchAll (sched : list searchGoroutine)
  : go (list SearchResult.t * option Err) :=
  v ← run_goroutines searchBody sched
        {| v_err := None; v_result := None; v_playlists := []; v_genres := [] |};
  match v_err v with
  | Some err => Ret ([], Some err)
  | None =>
      results ← mergeResults (v_result v) (v_playlists v) (v_genres v);
      (* rankResults(results, queryLowerWords) // TODO *)
      results ← truncate results;
      Ret (results, None)
  end.

End SearchAll.

(** A schedule runs each of the three goroutines once. *)
Definition searchSchedule (sched : list searchGoroutine) : Prop :=
  sched ≡ₚ [goSearch3; goPlaylists; goGenres].

End SubsonicProvider.

(* ===================================================================== *)
(** * Properties *)
(* ===================================================================== *)

(** ** The [go] monad and the helpers *)

Lemma go_bind_Ret {A B} (m : go A) (k : A -> go B) (b : B) :
  (m ≫= k) = Ret b -> exists a, m = Ret a /\ k a = Ret b.
Proof. destruct m as [a|]; [eauto | discriminate]. Qed.

Lemma go_map_Ret {A B} (f : A -> B) (l : list A) :
  go_map (fun a => Ret (f a)) l = Ret (map f l).
Proof. induction l as [|a l IH]; [reflexivity|]. simpl. rewrite IH. reflexivity. Qed.

(** ** The record adapters *)

Module AdapterFacts.
Import mediaprovider JellyfinProvider.

Lemma appendArtists_from (artists : list jellyfin.NameID.t) ids names :
  fold_left
    (fun acc a => (acc.1 ++ [jellyfin.NameID.ID a], acc.2 ++ [jellyfin.NameID.Name a]))
    artists (ids, names)
  = (ids ++ map jellyfin.NameID.ID artists, names ++ map jellyfin.NameID.Name artists).
Proof.
  revert ids names. induction artists as [|a l IH]; intros ids names; simpl.
  - by rewrite !app_nil_r.
  - rewrite IH. by rewrite <- !app_assoc.
Qed.

Lemma appendArtists_map artists :
  appendArtists artists
  = (map jellyfin.NameID.ID artists, map jellyfin.NameID.Name artists).
Proof. unfold appendArtists. by rewrite appendArtists_from. Qed.

(** What [toTrack] returns on a record, field by field. *)
Lemma toTrack_Some ch :
  exists t, toTrack (Some ch) = Ret (Some t)
    /\ Track.ArtistIDs t = map jellyfin.NameID.ID (jellyfin.Song.Artists ch)
    /\ Track.ArtistNames t = map jellyfin.NameID.Name (jellyfin.Song.Artists ch)
    /\ Track.Duration t = Z.quot (jellyfin.Song.RunTimeTicks ch) 10000000
    /\ Track.Genre t = "".
Proof.
  unfold toTrack. rewrite appendArtists_map.
  destruct (jellyfin.Song.MediaSources ch); eexists; (split; [reflexivity|]); simpl; auto.
Qed.

Lemma toAlbum_Some a :
  exists al, toAlbum (Some a) = Ret (Some al)
    /\ Album.ArtistIDs al = map jellyfin.NameID.ID (jellyfin.Album.Artists a)
    /\ Album.ArtistNames al = map jellyfin.NameID.Name (jellyfin.Album.Artists a)
    /\ Album.Duration al = Z.quot (jellyfin.Album.RunTimeTicks a) 10000000.
Proof.
  unfold toAlbum, fillAlbum. simpl. rewrite appendArtists_map.
  eexists; (split; [reflexivity|]); simpl; auto.
Qed.

Lemma toArtist_Some a : exists ar, toArtist (Some a) = Ret (Some ar).
Proof. eexists. reflexivity. Qed.

Lemma toPlaylist_Some user p :
  exists pl, toPlaylist user (Some p) = Ret (Some pl)
    /\ Playlist.Duration pl = Z.quot (jellyfin.Playlist.RunTimeTicks p) 1000000.
Proof. eexists. split; reflexivity. Qed.

End AdapterFacts.

(** C7.  The adapters on a nil record: [toTrack] answers nil, while
    [toArtist], [toAlbum] and [toPlaylist] dereference the nil pointer and
    panic.  On a record that is not nil every adapter returns a record. *)
Theorem adapters_on_nil :
  JellyfinProvider.toTrack None = Ret None
  /\ JellyfinProvider.toArtist None = Panic
  /\ JellyfinProvider.toAlbum None = Panic
  /\ (forall user, JellyfinProvider.toPlaylist user None = Panic)
  /\ (forall ch, exists t, JellyfinProvider.toTrack (Some ch) = Ret (Some t))
  /\ (forall a, exists ar, JellyfinProvider.toArtist (Some a) = Ret (Some ar))
  /\ (forall a, exists al, JellyfinProvider.toAlbum (Some a) = Ret (Some al))
  /\ (forall user p, exists pl, JellyfinProvider.toPlaylist user (Some p) = Ret (Some pl)).
Proof.
  repeat split; try reflexivity.
  - intros ch. destruct (AdapterFacts.toTrack_Some ch) as (t & H & _). eauto.
  - apply AdapterFacts.toArtist_Some.
  - intros a. destruct (AdapterFacts.toAlbum_Some a) as (t & H & _). eauto.
  - intros user p. destruct (AdapterFacts.toPlaylist_Some user p) as (t & H & _). eauto.
Qed.

(** C8.  In every Track and every Album that the Jellyfin adapters produce,
    [ArtistIDs] and [ArtistNames] have the same length, and at each index
    they hold the ID and the name of the artist reference that the backend
    record has at that index. *)
Theorem artist_lists_parallel :
  (forall ch, exists t,
      JellyfinProvider.toTrack (Some ch) = Ret (Some t)
      /\ length (mediaprovider.Track.ArtistIDs t)
         = length (mediaprovider.Track.ArtistNames t)
      /\ forall i : nat,
          mediaprovider.Track.ArtistIDs t !! i
            = jellyfin.NameID.ID <$> (jellyfin.Song.Artists ch !! i)
          /\ mediaprovider.Track.ArtistNames t !! i
            = jellyfin.NameID.Name <$> (jellyfin.Song.Artists ch !! i))
  /\ (forall a, exists al,
      JellyfinProvider.toAlbum (Some a) = Ret (Some al)
      /\ length (mediaprovider.Album.ArtistIDs al)
         = length (mediaprovider.Album.ArtistNames al)
      /\ forall i : nat,
          mediaprovider.Album.ArtistIDs al !! i
            = jellyfin.NameID.ID <$> (jellyfin.Album.Artists a !! i)
          /\ mediaprovider.Album.ArtistNames al !! i
            = jellyfin.NameID.Name <$> (jellyfin.Album.Artists a !! i)).
Proof.
  split.
  - intros ch. destruct (AdapterFacts.toTrack_Some ch) as (t & H & Hi & Hn & _).
    exists t. rewrite Hi, Hn. split; [done|]. split.
    + by rewrite !length_map.
    + intros i. by rewrite !list_lookup_fmap.
  - intros a. destruct (AdapterFacts.toAlbum_Some a) as (t & H & Hi & Hn & _).
    exists t. rewrite Hi, Hn. split; [done|]. split.
    + by rewrite !length_map.
    + intros i. by rewrite !list_lookup_fmap.
Qed.

(** C9.  Track and album durations are [RunTimeTicks] divided by
    10,000,000; the playlist duration is [RunTimeTicks] divided by
    1,000,000.  The two factors are not interchangeable: ten million ticks
    are one second of a track or an album and ten of a playlist. *)
Theorem duration_factors :
  (forall ch, exists t,
      JellyfinProvider.toTrack (Some ch) = Ret (Some t)
      /\ mediaprovider.Track.Duration t
         = Z.quot (jellyfin.Song.RunTimeTicks ch) 10000000)
  /\ (forall a, exists al,
      JellyfinProvider.toAlbum (Some a) = Ret (Some al)
      /\ mediaprovider.Album.Duration al
         = Z.quot (jellyfin.Album.RunTimeTicks a) 10000000)
  /\ (forall user p, exists pl,
      JellyfinProvider.toPlaylist user (Some p) = Ret (Some pl)
      /\ mediaprovider.Playlist.Duration pl
         = Z.quot (jellyfin.Playlist.RunTimeTicks p) 1000000)
  /\ Z.quot 10000000 10000000 = 1 /\ Z.quot 10000000 1000000 = 10.
Proof.
  repeat split.
  - intros ch. destruct (AdapterFacts.toTrack_Some ch) as (t & H & _ & _ & Hd & _). eauto.
  - intros a. destruct (AdapterFacts.toAlbum_Some a) as (t & H & _ & _ & Hd). eauto.
  - apply AdapterFacts.toPlaylist_Some.
Qed.

(** C10.  The Track that [toTrack] makes of a song record has the empty
    [Genre], whatever genres the record carries. *)
Theorem toTrack_genre_empty :
  forall ch, exists t,
    JellyfinProvider.toTrack (Some ch) = Ret (Some t)
    /\ mediaprovider.Track.Genre t = "".
Proof.
  intros ch. destruct (AdapterFacts.toTrack_Some ch) as (t & H & _ & _ & _ & Hg). eauto.
Qed.

(** ** Schedules of three goroutines *)

(** Closes a goal whose hypothesis [H] takes for a schedule a list from
    which goroutine [g] is missing. *)
Ltac missing_goroutine H g :=
  exfalso;
  match type of H with
  | Permutation ?l ?r =>
      let Hin := fresh "Hin" in
      assert (g ∈ l) as Hin by (rewrite H; repeat constructor);
      repeat (apply elem_of_cons in Hin as [Hin|Hin]; [discriminate|]);
      by apply elem_of_nil in Hin
  end.

Lemma favSchedule_cases sched :
  JellyfinProvider.favSchedule sched ->
  let a := JellyfinProvider.favAlbums in
  let b := JellyfinProvider.favArtists in
  let c := JellyfinProvider.favTracks in
  sched = [a; b; c] \/ sched = [a; c; b] \/ sched = [b; a; c]
  \/ sched = [b; c; a] \/ sched = [c; a; b] \/ sched = [c; b; a].
Proof.
  unfold JellyfinProvider.favSchedule. intros H.
  pose proof (Permutation_length H) as Hlen.
  destruct sched as [|x [|y [|z [|? ?]]]]; try discriminate Hlen.
  destruct x, y, z; simpl; auto 10;
    first [ missing_goroutine H JellyfinProvider.favAlbums
          | missing_goroutine H JellyfinProvider.favArtists
          | missing_goroutine H JellyfinProvider.favTracks ].
Qed.

(** ** [GetFavorites] *)

Module GetFavoritesFacts.
Import mediaprovider JellyfinProvider.

(** What a sub-query leaves in its field of [favorites]: the adapter
    applied to every record of a successful answer, nothing after a
    failure. *)
Definition filled {A B} (f : ptr A -> go (ptr B))
    (answer : slice (ptr A) * option Err) (field : slice (ptr B)) : Prop :=
  match answer.2 with
  | Some _ => field = None
  | None => go_map f (elems answer.1) = Ret (elems field)
  end.

Section body.
Variable nil_when_empty : bool -> bool.
Variable client : Client.

(** A goroutine either stores a value in its field or stores nothing. *)
Definition store {X} (upd : option X) (old : X) : X := default old upd.

Lemma MapSlice_filled {A B} (f : ptr A -> go (ptr B)) ts e :
  (e = None -> exists l, go_map f (elems ts) = Ret l) ->
  exists upd : option (slice (ptr B)),
    (if bool_decide (e = None) && (0 <? len ts)%Z
     then r ← sharedutil.MapSlice nil_when_empty ts f; Ret (Some r)
     else Ret None) = Ret upd
    /\ filled f (ts, e) (store upd None).
Proof.
  intros Hdef. unfold filled. simpl. destruct e as [e|]; simpl.
  - exists None. split; reflexivity.
  - destruct (Hdef eq_refl) as [l Hl].
    destruct (0 <? len ts)%Z eqn:Hlen.
    + unfold sharedutil.MapSlice. rewrite Hl. simpl.
      eexists (Some _). split; [reflexivity|]. simpl.
      destruct l; [destruct (nil_when_empty _)|]; reflexivity.
    + exists None. split; [reflexivity|]. simpl.
      apply Z.ltb_ge in Hlen. unfold len in Hlen.
      destruct (elems ts); [reflexivity | simpl in Hlen; lia].
Qed.

Lemma toTrack_total (l : list (ptr jellyfin.Song.t)) :
  exists r, go_map toTrack l = Ret r.
Proof.
  induction l as [|p l [r IH]]; [eexists; reflexivity|]. simpl.
  destruct p as [ch|].
  - destruct (AdapterFacts.toTrack_Some ch) as (t & -> & _). simpl.
    rewrite IH. eexists. reflexivity.
  - simpl. rewrite IH. eexists. reflexivity.
Qed.

Lemma go_map_defined {A B} (f : ptr A -> go (ptr B)) (l : list (ptr A)) :
  (forall a, exists b, f (Some a) = Ret b) ->
  no_nil l -> exists r, go_map f l = Ret r.
Proof.
  intros Hf. induction 1 as [|p l [a ->] _ [r IH]]; [eexists; reflexivity|].
  simpl. destruct (Hf a) as [b ->]. simpl. rewrite IH. eexists. reflexivity.
Qed.

Hypothesis albums_wf :
  (GetAlbums client favOpts).2 = None -> no_nil (elems (GetAlbums client favOpts).1).
Hypothesis artists_wf :
  (GetAlbumArtists client favOpts).2 = None ->
  no_nil (elems (GetAlbumArtists client favOpts).1).

Lemma favBody_albums :
  exists upd, filled toAlbum (GetAlbums client favOpts) (store upd None) /\
    forall fav, favBody nil_when_empty client favAlbums fav
      = Ret (Favorites.mk (store upd (Favorites.Albums fav))
               (Favorites.Artists fav) (Favorites.Tracks fav)).
Proof.
  unfold favBody. destruct (GetAlbums client favOpts) as [al e] eqn:E.
  simpl in albums_wf.
  destruct (MapSlice_filled toAlbum al e) as (upd & Hupd & Hf).
  { intros He. apply go_map_defined; [|auto].
    intros a. destruct (AdapterFacts.toAlbum_Some a) as (? & -> & _). eauto. }
  exists upd. split; [exact Hf|]. intros [A B C].
  destruct (bool_decide (e = None) && (0 <? len al)%Z).
  - apply go_bind_Ret in Hupd as (r & -> & [= <-]). reflexivity.
  - injection Hupd as <-. reflexivity.
Qed.

Lemma favBody_artists :
  exists upd, filled toArtist (GetAlbumArtists client favOpts) (store upd None) /\
    forall fav, favBody nil_when_empty client favArtists fav
      = Ret (Favorites.mk (Favorites.Albums fav)
               (store upd (Favorites.Artists fav)) (Favorites.Tracks fav)).
Proof.
  unfold favBody. destruct (GetAlbumArtists client favOpts) as [al e] eqn:E.
  simpl in artists_wf.
  destruct (MapSlice_filled toArtist al e) as (upd & Hupd & Hf).
  { intros He. apply go_map_defined; [|auto].
    intros a. destruct (AdapterFacts.toArtist_Some a) as (? & ->). eauto. }
  exists upd. split; [exact Hf|]. intros [A B C].
  destruct (bool_decide (e = None) && (0 <? len al)%Z).
  - apply go_bind_Ret in Hupd as (r & -> & [= <-]). reflexivity.
  - injection Hupd as <-. reflexivity.
Qed.

Lemma favBody_tracks :
  exists upd, filled toTrack (GetSongs client favOpts) (store upd None) /\
    forall fav, favBody nil_when_empty client favTracks fav
      = Ret (Favorites.mk (Favorites.Albums fav) (Favorites.Artists fav)
               (store upd (Favorites.Tracks fav))).
Proof.
  unfold favBody. destruct (GetSongs client favOpts) as [al e] eqn:E.
  destruct (MapSlice_filled toTrack al e) as (upd & Hupd & Hf).
  { intros He. apply toTrack_total. }
  exists upd. split; [exact Hf|]. intros [A B C].
  destruct (bool_decide (e = None) && (0 <? len al)%Z).
  - apply go_bind_Ret in Hupd as (r & -> & [= <-]). reflexivity.
  - injection Hupd as <-. reflexivity.
Qed.

(** Whatever the order in which the goroutines run, the aggregate is
    the same. *)
Lemma GetFavorites_any_schedule sched :
  favSchedule sched ->
  exists fav, GetFavorites nil_when_empty client sched = Ret (fav, None)
    /\ filled toAlbum (GetAlbums client favOpts) (Favorites.Albums fav)
    /\ filled toArtist (GetAlbumArtists client favOpts) (Favorites.Artists fav)
    /\ filled toTrack (GetSongs client favOpts) (Favorites.Tracks fav).
Proof.
  intros Hs.
  destruct favBody_albums as (ua & Ha & Hba).
  destruct favBody_artists as (ub & Hb & Hbb).
  destruct favBody_tracks as (uc & Hc & Hbc).
  exists (Favorites.mk (store ua None) (store ub None) (store uc None)).
  split; [|auto].
  unfold GetFavorites.
  destruct (favSchedule_cases _ Hs) as [-> | [-> | [-> | [-> | [-> | ->]]]]];
    repeat (cbn [run_goroutines];
            first [rewrite Hba | rewrite Hbb | rewrite Hbc];
            cbn [mbind go_mbind go_bind]);
    reflexivity.
Qed.

End body.
End GetFavoritesFacts.

(** C3.  [GetFavorites] returns an aggregate and the nil error whatever its
    three sub-queries answer and in whatever order they finish.  A
    sub-query that fails leaves its list empty; one that succeeds fills its
    list with the adapter applied to every record of its answer.  (The
    album and artist answers are taken to hold no nil record, on which
    [toAlbum] and [toArtist] panic.) *)
Theorem GetFavorites_best_effort nil_when_empty client sched :
  let albums := JellyfinProvider.GetAlbums client JellyfinProvider.favOpts in
  let artists := JellyfinProvider.GetAlbumArtists client JellyfinProvider.favOpts in
  let tracks := JellyfinProvider.GetSongs client JellyfinProvider.favOpts in
  JellyfinProvider.favSchedule sched ->
  (albums.2 = None -> no_nil (elems albums.1)) ->
  (artists.2 = None -> no_nil (elems artists.1)) ->
  exists fav,
    JellyfinProvider.GetFavorites nil_when_empty client sched = Ret (fav, None)
    /\ (albums.2 <> None -> elems (mediaprovider.Favorites.Albums fav) = [])
    /\ (artists.2 <> None -> elems (mediaprovider.Favorites.Artists fav) = [])
    /\ (tracks.2 <> None -> elems (mediaprovider.Favorites.Tracks fav) = [])
    /\ (albums.2 = None ->
        go_map JellyfinProvider.toAlbum (elems albums.1)
        = Ret (elems (mediaprovider.Favorites.Albums fav)))
    /\ (artists.2 = None ->
        go_map JellyfinProvider.toArtist (elems artists.1)
        = Ret (elems (mediaprovider.Favorites.Artists fav)))
    /\ (tracks.2 = None ->
        go_map JellyfinProvider.toTrack (elems tracks.1)
        = Ret (elems (mediaprovider.Favorites.Tracks fav))).
Proof.
  intros albums artists tracks Hs Hal Har.
  destruct (GetFavoritesFacts.GetFavorites_any_schedule
              nil_when_empty client Hal Har sched Hs) as (fav & Hrun & Ha & Hb & Hc).
  exists fav. split; [exact Hrun|].
  unfold GetFavoritesFacts.filled in Ha, Hb, Hc.
  fold albums in Ha. fold artists in Hb. fold tracks in Hc.
  destruct albums.2, artists.2, tracks.2;
    repeat split; intros; try congruence;
    repeat match goal with H : _ = None |- _ => rewrite H end; reflexivity.
Qed.

Module GetFavoritesExample.
Import mediaprovider JellyfinProvider.

Definition userData : jellyfin.UserData.t := jellyfin.UserData.mk 0 true 3.

Definition album1 : jellyfin.Album.t :=
  jellyfin.Album.mk "al-1" "Blue" [jellyfin.NameID.mk "Ann" "ar-1"]
    25000000 1999 9 ["jazz"] "" userData.

Definition song1 : jellyfin.Song.t :=
  jellyfin.Song.mk "tr-1" "Intro" "Blue" "al-1"
    [jellyfin.NameID.mk "Ann" "ar-1"; jellyfin.NameID.mk "Bob" "ar-2"]
    "" 1234567890 1 1 1999 ["jazz"] userData [].

(** Albums and songs are answered; the favorite-artists query fails. *)
Definition client : Client := {|
  GetAlbums := fun _ => (Some [Some album1], None);
  GetAlbumArtists := fun _ => (None, Some "503");
  GetSongs := fun _ => (Some [Some song1; None], None);
  LoggedInUser := "ann"
|}.

(** The album answer holds a nil record. *)
Definition nilAlbum : Client := {|
  GetAlbums := fun _ => (Some [Some album1; None], None);
  GetAlbumArtists := GetAlbumArtists client;
  GetSongs := GetSongs client;
  LoggedInUser := "ann"
|}.

Example GetFavorites_nil_album :
  GetFavorites (fun b => b) nilAlbum [favAlbums; favArtists; favTracks] = Panic.
Proof. reflexivity. Qed.

End GetFavoritesExample.

Lemma GetFavorites_best_effort_witness :
  exists fav,
    JellyfinProvider.GetFavorites (fun b => b) GetFavoritesExample.client
      [JellyfinProvider.favTracks; JellyfinProvider.favAlbums;
       JellyfinProvider.favArtists] = Ret (fav, None)
    /\ elems (mediaprovider.Favorites.Artists fav) = []
    /\ length (elems (mediaprovider.Favorites.Albums fav)) = 1%nat
    /\ length (elems (mediaprovider.Favorites.Tracks fav)) = 2%nat.
Proof.
  destruct (GetFavorites_best_effort (fun b => b) GetFavoritesExample.client
              [JellyfinProvider.favTracks; JellyfinProvider.favAlbums;
               JellyfinProvider.favArtists])
    as (fav & Hrun & _ & Har & _ & Hal & _ & Htr).
  - unfold JellyfinProvider.favSchedule.
    apply (Permutation_cons_app [_; _] [] _). reflexivity.
  - intros _. simpl. repeat constructor. eexists. reflexivity.
  - simpl. discriminate.
  - exists fav. split; [exact Hrun|]. split; [apply Har; simpl; discriminate|].
    specialize (Hal eq_refl). specialize (Htr eq_refl).
    simpl in Hal, Htr. injection Hal as <-. injection Htr as <-. split; reflexivity.
Defined.

(** ** [GetGenres] *)

Lemma int64_id z : - 2 ^ 63 <= z < 2 ^ 63 -> int64 z = z.
Proof. intros H. unfold int64. rewrite Z.mod_small; lia. Qed.

Module GenresFacts.
Import mediaprovider JellyfinProvider.

(** The Genre that [GetGenres] makes of a backend genre. *)
Definition genreOf (g : jellyfin.NameID.t) : ptr Genre.t :=
  Some (Genre.mk (jellyfin.NameID.Name g) (-1) (-1)).

Section facts.
Variable nil_when_empty : bool -> bool.
Variable backend : nat -> Z * (slice jellyfin.NameID.t * option Err).

Lemma MapSlice_toGenre g :
  exists cached,
    sharedutil.MapSlice nil_when_empty g toGenre = Ret cached
    /\ elems cached = map genreOf (elems g).
Proof.
  unfold sharedutil.MapSlice.
  change toGenre with (fun a => Ret (genreOf a)). rewrite go_map_Ret.
  simpl. destruct (map genreOf (elems g)) eqn:E.
  - destruct (nil_when_empty _); eexists; split; reflexivity.
  - eexists; split; reflexivity.
Qed.

Lemma GetGenres_hit j w :
  jellyfinMediaProvider.genresCached j <> None ->
  - 2 ^ 63 <= now w - jellyfinMediaProvider.genresCachedAt j < 60 ->
  GetGenres nil_when_empty backend j w
  = Ret ((jellyfinMediaProvider.genresCached j, None), j, w).
Proof.
  intros Hc Ht. unfold GetGenres, cacheValidDurationSeconds.
  rewrite int64_id by lia.
  destruct (jellyfinMediaProvider.genresCached j); [|congruence].
  simpl. destruct (Z.ltb_spec (now w - jellyfinMediaProvider.genresCachedAt j) 60);
    [reflexivity | lia].
Qed.

Lemma GetGenres_miss j w :
  jellyfinMediaProvider.genresCached j = None
  \/ 60 <= now w - jellyfinMediaProvider.genresCachedAt j < 2 ^ 63 ->
  GetGenres nil_when_empty backend j w
  = let '((g, err), w1) := client_GetGenres backend w in
    match err with
    | Some e => Ret ((None, Some e), j, w1)
    | None =>
        cached ← sharedutil.MapSlice nil_when_empty g toGenre;
        Ret ((cached, None), jellyfinMediaProvider.mk cached (now w1), w1)
    end.
Proof.
  intros H. unfold GetGenres, cacheValidDurationSeconds.
  destruct H as [-> | Ht]; [reflexivity|].
  rewrite int64_id by lia.
  destruct (Z.ltb_spec (now w - jellyfinMediaProvider.genresCachedAt j) 60);
    [lia|]. rewrite andb_false_r. reflexivity.
Qed.

End facts.
End GenresFacts.

(** C4.  [GetGenres] and its cache.
    (1) While the cached list is there (not nil) and less than 60 seconds
        have passed since [genresCachedAt], the cached list is returned, no
        backend call is made and the cache is left alone.
    (2) Once 60 seconds have passed (or with a nil cached list) exactly one
        backend call is made.  If it fails, its error is returned and the
        cached list and its timestamp are unchanged.  If it succeeds, the
        list made of its answer is returned and becomes the cached list,
        and the timestamp becomes the time after the call.
    (3) The first call on a new provider is of the second kind.
    (4) After a fetch that cached a list, a call less than 60 seconds later
        returns that same list without a backend call. *)
Theorem GetGenres_cache nil_when_empty backend :
  let GetGenres := JellyfinProvider.GetGenres nil_when_empty backend in
  let cachedOf := JellyfinProvider.jellyfinMediaProvider.genresCached in
  let cachedAtOf := JellyfinProvider.jellyfinMediaProvider.genresCachedAt in
  let expired j w :=
    cachedOf j = None \/ 60 <= JellyfinProvider.now w - cachedAtOf j < 2 ^ 63 in
  (forall j w,
      cachedOf j <> None ->
      - 2 ^ 63 <= JellyfinProvider.now w - cachedAtOf j < 60 ->
      GetGenres j w = Ret ((cachedOf j, None), j, w))
  /\ (forall j w g err w1,
      expired j w ->
      JellyfinProvider.client_GetGenres backend w = ((g, err), w1) ->
      JellyfinProvider.fetches w1 = S (JellyfinProvider.fetches w)
      /\ match err with
         | Some e => GetGenres j w = Ret ((None, Some e), j, w1)
         | None =>
             exists cached,
               GetGenres j w
               = Ret ((cached, None),
                      JellyfinProvider.jellyfinMediaProvider.mk
                        cached (JellyfinProvider.now w1),
                      w1)
               /\ elems cached = map GenresFacts.genreOf (elems g)
         end)
  /\ (forall w,
      60 <= JellyfinProvider.now w < 2 ^ 63 ->
      expired JellyfinProvider.newJellyfinMediaProvider w)
  /\ (forall j w cached j1 w1 t,
      expired j w ->
      GetGenres j w = Ret ((cached, None), j1, w1) ->
      cached <> None ->
      - 2 ^ 63 <= t - JellyfinProvider.now w1 < 60 ->
      let w2 := {| JellyfinProvider.now := t;
                   JellyfinProvider.fetches := JellyfinProvider.fetches w1 |} in
      GetGenres j1 w2 = Ret ((cached, None), j1, w2)).
Proof.
  intros GetGenres cachedOf cachedAtOf expired. subst GetGenres.
  split; [|split; [|split]].
  - intros j w. apply GenresFacts.GetGenres_hit.
  - intros j w g err w1 Hexp Hcall. split.
    + unfold JellyfinProvider.client_GetGenres in Hcall.
      destruct (backend _) as [d r]. by injection Hcall as _ <-.
    + rewrite GenresFacts.GetGenres_miss by exact Hexp.
      rewrite Hcall. destruct err as [e|]; [reflexivity|].
      destruct (GenresFacts.MapSlice_toGenre nil_when_empty g) as (cached & -> & Hel).
      exists cached. split; [reflexivity | exact Hel].
  - intros w Hw. right. simpl. lia.
  - intros j w cached j1 w1 t Hexp Hrun Hc Ht w2.
    rewrite GenresFacts.GetGenres_miss in Hrun by exact Hexp.
    destruct (JellyfinProvider.client_GetGenres backend w) as [[g err] w1'].
    destruct err as [e|]; [discriminate|].
    apply go_bind_Ret in Hrun as (c & _ & Hret).
    injection Hret as <- <- <-.
    apply (GenresFacts.GetGenres_hit nil_when_empty backend
             (JellyfinProvider.jellyfinMediaProvider.mk c (JellyfinProvider.now w1')) w2).
    + exact Hc.
    + exact Ht.
Qed.

Module GenresExample.
Import JellyfinProvider.

(** The first call takes a second and lists two genres; every later
    call takes two seconds and fails. *)
Definition backend (n : nat) : Z * (slice jellyfin.NameID.t * option Err) :=
  match n with
  | O => (1, (Some [jellyfin.NameID.mk "Rock" "g1"; jellyfin.NameID.mk "Jazz" "g2"], None))
  | S _ => (2, (None, Some "timeout"))
  end.

Definition world (t : Z) (n : nat) : World := {| now := t; fetches := n |}.
End GenresExample.

Lemma GetGenres_cache_witness :
  let GetGenres := JellyfinProvider.GetGenres (fun b => b) GenresExample.backend in
  exists cached j1,
    cached <> None
    /\ GetGenres JellyfinProvider.newJellyfinMediaProvider (GenresExample.world 1000 0)
       = Ret ((cached, None), j1, GenresExample.world 1001 1)
    /\ GetGenres j1 (GenresExample.world 1030 1)
       = Ret ((cached, None), j1, GenresExample.world 1030 1)
    /\ GetGenres j1 (GenresExample.world 1061 1)
       = Ret ((None, Some "timeout"), j1, GenresExample.world 1063 2).
Proof.
  intros GetGenres.
  destruct (GetGenres_cache (fun b => b) GenresExample.backend)
    as (_ & Hmiss & Hfirst & Hagain).
  set (w0 := GenresExample.world 1000 0).
  assert (Hexp : JellyfinProvider.jellyfinMediaProvider.genresCached
                   JellyfinProvider.newJellyfinMediaProvider = None
                 \/ 60 <= JellyfinProvider.now w0
                          - JellyfinProvider.jellyfinMediaProvider.genresCachedAt
                              JellyfinProvider.newJellyfinMediaProvider < 2 ^ 63).
  { apply Hfirst. unfold w0. simpl. split; [lia | reflexivity]. }
  destruct (Hmiss JellyfinProvider.newJellyfinMediaProvider w0 _ _ _ Hexp eq_refl)
    as (_ & cached & Hrun & Hel).
  exists cached, (JellyfinProvider.jellyfinMediaProvider.mk cached 1001).
  assert (Hc : cached <> None).
  { intros ->. discriminate Hel. }
  split; [exact Hc|]. split; [exact Hrun|]. split.
  - apply (Hagain _ _ _ _ _ 1030 Hexp Hrun Hc). simpl. split; [discriminate | lia].
  - assert (Hexp' : 60 <= 1061 - 1001 < 2 ^ 63) by (split; [lia | reflexivity]).
    destruct (Hmiss (JellyfinProvider.jellyfinMediaProvider.mk cached 1001)
                (GenresExample.world 1061 1) _ _ _ (or_intror Hexp') eq_refl)
      as (_ & Hfail).
    exact Hfail.
Defined.

(** ** Package [strings] *)

Module StringFacts.
Import strings.

Lemma app_String c s t : String c s +:+ t = String c (s +:+ t).
Proof. reflexivity. Qed.

Lemma isSpace_lower c : isSpace (lower_ascii c) = isSpace c.
Proof. destruct c as [[] [] [] [] [] [] [] []]; reflexivity. Qed.

Lemma ToLower_app s t : ToLower (s +:+ t) = ToLower s +:+ ToLower t.
Proof.
  induction s as [|c s IH]; [reflexivity|].
  rewrite app_String. simpl. by rewrite IH, app_String.
Qed.







End StringFacts.

(** The strings of [isASCII] are closed under the operations of the
    filters: lower-casing, splitting into fields, taking a part. *)
Module AsciiFacts.
Import strings.



Lemma isASCII_app a b : isASCII (a +:+ b) = isASCII a && isASCII b.
Proof.
  induction a as [|c a IH]; [reflexivity|]. rewrite StringFacts.app_String. simpl.
  by rewrite IH, andb_assoc.
Qed.




End AsciiFacts.

(** ** [SearchAll] *)

Lemma searchSchedule_cases sched :
  SubsonicProvider.searchSchedule sched ->
  let a := SubsonicProvider.goSearch3 in
  let b := SubsonicProvider.goPlaylists in
  let c := SubsonicProvider.goGenres in
  sched = [a; b; c] \/ sched = [a; c; b] \/ sched = [b; a; c]
  \/ sched = [b; c; a] \/ sched = [c; a; b] \/ sched = [c; b; a].
Proof.
  unfold SubsonicProvider.searchSchedule. intros H.
  pose proof (Permutation_length H) as Hlen.
  destruct sched as [|x [|y [|z [|? ?]]]]; try discriminate Hlen.
  destruct x, y, z; simpl; auto 10;
    first [ missing_goroutine H SubsonicProvider.goSearch3
          | missing_goroutine H SubsonicProvider.goPlaylists
          | missing_goroutine H SubsonicProvider.goGenres ].
Qed.

(** The records that a slice of pointers points to. *)
Fixpoint records {A} (l : list (ptr A)) : list A :=
  match l with
  | [] => []
  | Some a :: l' => a :: records l'
  | None :: l' => records l'
  end.


Lemma no_nil_records {A} (l : list (ptr A)) : no_nil l <-> l = map Some (records l).
Proof.
  split.
  - induction 1 as [|p l [a ->] _ IH]; [reflexivity|].
    simpl. by rewrite <- IH.
  - intros ->. apply Forall_forall. intros p Hp.
    apply list_elem_of_fmap in Hp as (a & -> & _). eauto.
Qed.

Module SearchFacts.
Import mediaprovider SubsonicProvider.

Lemma appendResults_Some {A} (entry : A -> SearchResult.t) xs acc :
  appendResults entry (map Some xs) acc = Ret (acc ++ map entry xs).
Proof.
  revert acc. induction xs as [|x xs IH]; intros acc; simpl.
  - by rewrite app_nil_r.
  - rewrite IH. by rewrite <- app_assoc.
Qed.

Lemma appendResults_Ret {A} (entry : A -> SearchResult.t) l acc r :
  appendResults entry l acc = Ret r ->
  no_nil l /\ r = acc ++ map entry (records l).
Proof.
  revert acc. induction l as [|p l IH]; intros acc H; simpl in H.
  - injection H as <-. split; [constructor | by rewrite app_nil_r].
  - destruct p as [a|]; [|discriminate]. simpl in H.
    apply IH in H as [Hl ->]. split; [constructor; eauto|].
    simpl.
    by rewrite <- app_assoc.
Qed.

(** The candidates that pass the test of the filters. *)
Definition passing {A} (Name : A -> string) (words : list string) (xs : list A)
  : list A :=
  List.filter (fun x => allTermsMatch (strings.ToLower (Name x)) words) xs.

Lemma filter_Some {A} (Name : A -> string) words xs :
  sharedutil.FilterSlice (map Some xs) (nameMatches Name words)
  = Ret (map Some (passing Name words xs)).
Proof.
  unfold sharedutil.FilterSlice.
  induction xs as [|x xs IH]; [reflexivity|]. simpl. rewrite IH. simpl.
  destruct (allTermsMatch _ _); reflexivity.
Qed.

Lemma filter_Ret {A} (Name : A -> string) words l r :
  sharedutil.FilterSlice l (nameMatches Name words) = Ret r ->
  no_nil l /\ r = map Some (passing Name words (records l)).
Proof.
  unfold sharedutil.FilterSlice.
  revert r. induction l as [|p l IH]; intros r H; simpl in H.
  - injection H as <-. split; [constructor | reflexivity].
  - destruct p as [a|]; [|discriminate]. simpl in H.
    apply go_bind_Ret in H as (rest & Hrest & Hr). injection Hr as <-.
    apply IH in Hrest as [Hl ->]. split; [constructor; eauto|].
    simpl.
    destruct (allTermsMatch _ _); reflexivity.
Qed.

Section schedules.
Variable client : Client.
Variable searchQuery : string.
Variable maxResults : Z.

(** What a filter goroutine stores in its variable, if anything. *)
Definition filterPart {A} (Name : A -> string)
    (answer : list (ptr A) * option Err) : go (option (list (ptr A))) :=
  match answer.2 with
  | None =>
      r ← sharedutil.FilterSlice answer.1 (nameMatches Name (queryLowerWords searchQuery));
      Ret (Some r)
  | Some _ => Ret None
  end.

Definition primary := Search3 client searchQuery (search3Params maxResults).

Lemma searchBody_search3 v :
  searchBody client searchQuery maxResults goSearch3 v
  = Ret {| v_err := from_option Some (v_err v) primary.2;
           v_result := if primary.2 is Some _ then v_result v else primary.1;
           v_playlists := v_playlists v; v_genres := v_genres v |}.
Proof.
  unfold searchBody. fold primary. destruct primary as [res [e|]]; reflexivity.
Qed.

Lemma searchBody_playlists v :
  searchBody client searchQuery maxResults goPlaylists v
  = u ← filterPart subsonic.Playlist.Name (GetPlaylists client ∅);
    Ret {| v_err := v_err v; v_result := v_result v;
           v_playlists := default (v_playlists v) u; v_genres := v_genres v |}.
Proof.
  unfold searchBody, filterPart.
  destruct (GetPlaylists client ∅) as [p [e|]]; simpl.
  - by destruct v.
  - destruct (sharedutil.FilterSlice _ _); reflexivity.
Qed.

Lemma searchBody_genres v :
  searchBody client searchQuery maxResults goGenres v
  = u ← filterPart subsonic.Genre.Name (GetGenres client);
    Ret {| v_err := v_err v; v_result := v_result v;
           v_playlists := v_playlists v; v_genres := default (v_genres v) u |}.
Proof.
  unfold searchBody, filterPart.
  destruct (GetGenres client) as [p [e|]]; simpl.
  - by destruct v.
  - destruct (sharedutil.FilterSlice _ _); reflexivity.
Qed.

(** The variables at [wg.Wait()] do not depend on the order in which
    the goroutines ran. *)
Lemma run_any_schedule sched :
  searchSchedule sched ->
  run_goroutines (searchBody client searchQuery maxResults) sched
    {| v_err := None; v_result := None; v_playlists := []; v_genres := [] |}
  = up ← filterPart subsonic.Playlist.Name (GetPlaylists client ∅);
    ug ← filterPart subsonic.Genre.Name (GetGenres client);
    Ret {| v_err := primary.2;
           v_result := if primary.2 is Some _ then None else primary.1;
           v_playlists := default [] up; v_genres := default [] ug |}.
Proof.
  intros Hs.
  destruct (filterPart subsonic.Playlist.Name (GetPlaylists client ∅))
    as [up|] eqn:EP;
    destruct (filterPart subsonic.Genre.Name (GetGenres client)) as [ug|] eqn:EG;
    destruct (searchSchedule_cases _ Hs) as [-> | [-> | [-> | [-> | [-> | ->]]]]];
    repeat (cbn [run_goroutines];
            first [rewrite searchBody_search3 | rewrite searchBody_playlists
                  | rewrite searchBody_genres];
            rewrite ?EP, ?EG;
            cbn [mbind go_mbind go_bind]);
    try reflexivity;
    cbn; destruct primary.2; reflexivity.
Qed.

Lemma SearchAll_any_schedule sched :
  searchSchedule sched ->
  SearchAll client searchQuery maxResults sched
  = up ← filterPart subsonic.Playlist.Name (GetPlaylists client ∅);
    ug ← filterPart subsonic.Genre.Name (GetGenres client);
    match primary.2 with
    | Some err => Ret ([], Some err)
    | None =>
        results ← mergeResults primary.1 (default [] up) (default [] ug);
        results ← truncate maxResults results;
        Ret (results, None)
    end.
Proof.
  intros Hs. unfold SearchAll. rewrite (run_any_schedule _ Hs).
  destruct (filterPart subsonic.Playlist.Name _) as [up|]; [|reflexivity].
  destruct (filterPart subsonic.Genre.Name _) as [ug|]; [|reflexivity].
  cbn. destruct primary.2; reflexivity.
Qed.

(** The candidates of an answer that the filter keeps: none after a
    failure. *)
Definition matching {A} (Name : A -> string)
    (answer : list (ptr A) * option Err) : list A :=
  match answer.2 with
  | Some _ => []
  | None => passing Name (queryLowerWords searchQuery) (records answer.1)
  end.

Lemma filterPart_Some {A} (Name : A -> string) answer :
  (answer.2 = None -> no_nil answer.1) ->
  exists u, filterPart Name answer = Ret u
    /\ default [] u = map Some (matching Name answer).
Proof.
  unfold filterPart, matching. destruct answer as [l [e|]]; simpl; intros Hl.
  - exists None. split; reflexivity.
  - specialize (Hl eq_refl). apply no_nil_records in Hl.
    set (xs := records l) in *. clearbody xs. subst l.
    rewrite filter_Some. eexists. split; reflexivity.
Qed.

Lemma filterPart_Ret {A} (Name : A -> string) answer u :
  filterPart Name answer = Ret u ->
  (answer.2 = None -> no_nil answer.1)
  /\ default [] u = map Some (matching Name answer).
Proof.
  unfold filterPart, matching. destruct answer as [l [e|]]; simpl; intros H.
  - injection H as <-. split; [discriminate | reflexivity].
  - apply go_bind_Ret in H as (r & Hr & Hu). injection Hu as <-.
    apply filter_Ret in Hr as [Hl ->]. split; [auto | reflexivity].
Qed.

End schedules.

(** The merged list, in the order in which [mergeResults] appends. *)
Definition merged (sr : subsonic.SearchResult3.t)
    (pls : list subsonic.Playlist.t) (gens : list subsonic.Genre.t)
  : list SearchResult.t :=
  map albumResult (records (subsonic.SearchResult3.Album sr))
  ++ map artistResult (records (subsonic.SearchResult3.Artist sr))
  ++ map trackResult (records (subsonic.SearchResult3.Song sr))
  ++ map playlistResult pls
  ++ map genreResult gens.

Lemma mergeResults_Some sr pls gens :
  no_nil (subsonic.SearchResult3.Album sr) ->
  no_nil (subsonic.SearchResult3.Artist sr) ->
  no_nil (subsonic.SearchResult3.Song sr) ->
  mergeResults (Some sr) (map Some pls) (map Some gens) = Ret (merged sr pls gens).
Proof.
  intros Ha Hb Hc. unfold mergeResults, merged. cbn [deref mbind go_mbind go_bind].
  apply no_nil_records in Ha, Hb, Hc.
  rewrite Ha at 1. rewrite appendResults_Some. cbn [mbind go_mbind go_bind].
  rewrite Hb at 1. rewrite appendResults_Some. cbn [mbind go_mbind go_bind].
  rewrite Hc at 1. rewrite appendResults_Some. cbn [mbind go_mbind go_bind].
  rewrite appendResults_Some. cbn [mbind go_mbind go_bind].
  rewrite appendResults_Some. simpl. by rewrite <- !app_assoc.
Qed.

Lemma mergeResults_Ret res pls gens r :
  mergeResults res (map Some pls) (map Some gens) = Ret r ->
  exists sr, res = Some sr
    /\ no_nil (subsonic.SearchResult3.Album sr)
    /\ no_nil (subsonic.SearchResult3.Artist sr)
    /\ no_nil (subsonic.SearchResult3.Song sr)
    /\ r = merged sr pls gens.
Proof.
  destruct res as [sr|]; [|discriminate]. intros H. pose proof H as H0.
  unfold mergeResults in H. cbn [deref mbind go_mbind go_bind] in H.
  apply go_bind_Ret in H as (r1 & H1 & H).
  apply go_bind_Ret in H as (r2 & H2 & H).
  apply go_bind_Ret in H as (r3 & H3 & H).
  apply appendResults_Ret in H1 as [Ha _], H2 as [Hb _], H3 as [Hc _].
  rewrite (mergeResults_Some sr pls gens Ha Hb Hc) in H0. injection H0 as <-.
  exists sr. auto.
Qed.

End SearchFacts.

Module SearchTheory.
Import mediaprovider SubsonicProvider SearchFacts.

Lemma truncate_Ret maxResults l :
  0 <= maxResults -> truncate maxResults l = Ret (take (Z.to_nat maxResults) l).
Proof.
  intros Hm. unfold truncate. destruct (Z.ltb_spec maxResults (Z.of_nat (length l))).
  - destruct (Z.ltb_spec maxResults 0); [lia | reflexivity].
  - rewrite take_ge by lia. reflexivity.
Qed.

Lemma truncate_inv maxResults l r :
  truncate maxResults l = Ret r ->
  r = take (Z.to_nat maxResults) l /\ Z.of_nat (length r) <= maxResults.
Proof.
  unfold truncate. destruct (Z.ltb_spec maxResults (Z.of_nat (length l))).
  - destruct (Z.ltb_spec maxResults 0); [discriminate|]. intros [= <-].
    split; [reflexivity|]. rewrite length_take. lia.
  - intros [= <-]. split; [|lia]. rewrite take_ge by lia. reflexivity.
Qed.

Lemma merged_types sr pls gens r :
  r ∈ merged sr pls gens ->
  (SearchResult.Type_ r = ContentTypePlaylist -> r ∈ map playlistResult pls)
  /\ (SearchResult.Type_ r = ContentTypeGenre -> r ∈ map genreResult gens).
Proof.
  unfold merged. rewrite !elem_of_app.
  intros [H | [H | [H | [H | H]]]]; split; intros Ht; try exact H;
    apply list_elem_of_fmap in H as (x & -> & _); discriminate Ht.
Qed.



End SearchTheory.

(** C1.  The failure policy of [SearchAll], for every query, every
    [maxResults] and every order in which the three sub-queries finish.
    (a) When the primary search ([Search3]) returns an error, [SearchAll]
        returns that error and no result list, whatever the playlist and
        genre sub-queries answered.
    (b) When the primary search succeeds and the playlist (or genre)
        sub-query returns an error, [SearchAll] returns a list and no
        error, and no entry of the list is a playlist (or genre).
    (The backend lists are taken to hold no nil record, and in (b)
    [maxResults] not to be negative.) *)
Theorem SearchAll_failure_policy client searchQuery maxResults sched :
  let primary :=
    SubsonicProvider.Search3 client searchQuery
      (SubsonicProvider.search3Params maxResults) in
  let playlists := SubsonicProvider.GetPlaylists client ∅ in
  let genres := SubsonicProvider.GetGenres client in
  SubsonicProvider.searchSchedule sched ->
  (playlists.2 = None -> no_nil playlists.1) ->
  (genres.2 = None -> no_nil genres.1) ->
  (forall e, primary.2 = Some e ->
     SubsonicProvider.SearchAll client searchQuery maxResults sched
     = Ret ([], Some e))
  /\ (forall sr,
       primary = (Some sr, None) ->
       no_nil (subsonic.SearchResult3.Album sr) ->
       no_nil (subsonic.SearchResult3.Artist sr) ->
       no_nil (subsonic.SearchResult3.Song sr) ->
       0 <= maxResults ->
       exists results,
         SubsonicProvider.SearchAll client searchQuery maxResults sched
         = Ret (results, None)
         /\ (playlists.2 <> None ->
             forall r, r ∈ results ->
               mediaprovider.SearchResult.Type_ r <> mediaprovider.ContentTypePlaylist)
         /\ (genres.2 <> None ->
             forall r, r ∈ results ->
               mediaprovider.SearchResult.Type_ r <> mediaprovider.ContentTypeGenre)).
Proof.
  intros primary playlists genres Hs Hpl Hgn.
  rewrite (SearchFacts.SearchAll_any_schedule client searchQuery maxResults sched Hs).
  fold playlists genres. change (SearchFacts.primary client searchQuery maxResults)
    with primary.
  destruct (SearchFacts.filterPart_Some searchQuery subsonic.Playlist.Name playlists Hpl)
    as (up & -> & Hup).
  destruct (SearchFacts.filterPart_Some searchQuery subsonic.Genre.Name genres Hgn)
    as (ug & -> & Hug).
  cbn [mbind go_mbind go_bind]. split.
  - intros e ->. reflexivity.
  - intros sr Hsr Ha Hb Hc Hm. rewrite Hsr. cbn [fst snd]. rewrite Hup, Hug.
    rewrite (SearchFacts.mergeResults_Some sr _ _ Ha Hb Hc).
    cbn [mbind go_mbind go_bind]. rewrite (SearchTheory.truncate_Ret _ _ Hm).
    eexists. split; [reflexivity|]. split.
    + intros He r Hr Ht. apply elem_of_take in Hr as (i & Hr & _).
      apply list_elem_of_lookup_2 in Hr.
      apply SearchTheory.merged_types in Hr as [Hr _]. specialize (Hr Ht).
      unfold SearchFacts.matching in Hr. destruct playlists.2; [|congruence].
      by apply elem_of_nil in Hr.
    + intros He r Hr Ht. apply elem_of_take in Hr as (i & Hr & _).
      apply list_elem_of_lookup_2 in Hr.
      apply SearchTheory.merged_types in Hr as [_ Hr]. specialize (Hr Ht).
      unfold SearchFacts.matching in Hr. destruct genres.2; [|congruence].
      by apply elem_of_nil in Hr.
Qed.

(** C5.  Every call of [SearchAll] that returns without error asked the
    primary search for [maxResults / 3] (integer division) albums, artists
    and songs, and returns the albums, then the artists, then the tracks
    of its answer, each in the order of the answer, then the matching
    playlists, then the matching genres, cut after [maxResults] entries. *)
Theorem SearchAll_merge_order client searchQuery maxResults sched results :
  SubsonicProvider.searchSchedule sched ->
  SubsonicProvider.SearchAll client searchQuery maxResults sched
  = Ret (results, None) ->
  let count := strconv.Itoa (Z.quot maxResults 3) in
  exists sr,
    SubsonicProvider.Search3 client searchQuery
      {[ "artistCount" := count; "albumCount" := count; "songCount" := count ]}
    = (Some sr, None)
    /\ subsonic.SearchResult3.Album sr = map Some (records (subsonic.SearchResult3.Album sr))
    /\ subsonic.SearchResult3.Artist sr = map Some (records (subsonic.SearchResult3.Artist sr))
    /\ subsonic.SearchResult3.Song sr = map Some (records (subsonic.SearchResult3.Song sr))
    /\ results
       = take (Z.to_nat maxResults)
           (map SubsonicProvider.albumResult (records (subsonic.SearchResult3.Album sr))
            ++ map SubsonicProvider.artistResult (records (subsonic.SearchResult3.Artist sr))
            ++ map SubsonicProvider.trackResult (records (subsonic.SearchResult3.Song sr))
            ++ map SubsonicProvider.playlistResult
                 (SearchFacts.matching searchQuery subsonic.Playlist.Name
                    (SubsonicProvider.GetPlaylists client ∅))
            ++ map SubsonicProvider.genreResult
                 (SearchFacts.matching searchQuery subsonic.Genre.Name
                    (SubsonicProvider.GetGenres client)))
    /\ Z.of_nat (length results) <= maxResults.
Proof.
  intros Hs Hrun count.
  rewrite (SearchFacts.SearchAll_any_schedule client searchQuery maxResults sched Hs)
    in Hrun.
  apply go_bind_Ret in Hrun as (up & Hup & Hrun).
  apply go_bind_Ret in Hrun as (ug & Hug & Hrun).
  apply SearchFacts.filterPart_Ret in Hup as [_ Hup], Hug as [_ Hug].
  unfold SearchFacts.primary in Hrun.
  destruct (SubsonicProvider.Search3 client searchQuery
              (SubsonicProvider.search3Params maxResults)) as [res [e|]] eqn:Hprimary;
    [discriminate|]. cbn [fst snd] in Hrun.
  apply go_bind_Ret in Hrun as (r0 & Hmerge & Hrun).
  apply go_bind_Ret in Hrun as (r1 & Htrunc & Hret). injection Hret as <-.
  rewrite Hup, Hug in Hmerge.
  apply SearchFacts.mergeResults_Ret in Hmerge as (sr & -> & Ha & Hb & Hc & ->).
  apply SearchTheory.truncate_inv in Htrunc as [-> Hlen].
  exists sr. split; [exact Hprimary|].
  apply no_nil_records in Ha, Hb, Hc. auto.
Qed.

(** ** The filters of [SearchAll] against their description *)


Module FilterFacts.
Import mediaprovider SubsonicProvider SearchFacts SearchTheory.








End FilterFacts.


(** ** A backend with one album, one artist, two songs, two playlists and
       two genres *)

Module SearchExample.
Import SubsonicProvider.

Definition found : subsonic.SearchResult3.t := {|
  subsonic.SearchResult3.Artist :=
    [Some (subsonic.ArtistID3.mk "ar-1" "cv-ar-1" "Foo Bar Band" 4)];
  subsonic.SearchResult3.Album :=
    [Some (subsonic.AlbumID3.mk "al-1" "cv-al-1" "Foo at the Bar" "Ann"
             [subsonic.IDName.mk "ar-1" "Ann"; subsonic.IDName.mk "ar-2" "Bob"] 12)];
  subsonic.SearchResult3.Song :=
    [Some (subsonic.Child.mk "tr-1" "cv-al-1" "Bar Foo" "Ann" [] 215);
     Some (subsonic.Child.mk "tr-2" "cv-al-1" "Foo Bar (live)" "Ann" [] 301)]
|}.

Definition mix : subsonic.Playlist.t :=
  subsonic.Playlist.mk "pl-1" "cv-pl-1" "FOO bar baz" 3.
Definition other : subsonic.Playlist.t :=
  subsonic.Playlist.mk "pl-2" "cv-pl-2" "bar only" 1.

Definition unrelated : subsonic.Genre.t := subsonic.Genre.mk "unrelated" 7.
Definition barfoo : subsonic.Genre.t := subsonic.Genre.mk "Barfoo" 2.

(** Answers the search only when asked for ten of each kind. *)
Definition client : Client := {|
  Search3 := fun _ params =>
    if decide (params = search3Params 30) then (Some found, None)
    else (None, Some "400");
  GetPlaylists := fun _ => ([Some mix; Some other], None);
  GetGenres := ([Some unrelated; Some barfoo], None)
|}.

(** The primary search is down. *)
Definition searchDown : Client := {|
  Search3 := fun _ _ => (None, Some "502");
  GetPlaylists := GetPlaylists client;
  GetGenres := GetGenres client
|}.

(** The playlist endpoint is down. *)
Definition playlistsDown : Client := {|
  Search3 := Search3 client;
  GetPlaylists := fun _ => ([], Some "503");
  GetGenres := GetGenres client
|}.

Definition sched : list searchGoroutine := [goGenres; goSearch3; goPlaylists].

Lemma sched_ok : searchSchedule sched.
Proof. apply (Permutation_cons_app [_; _] [] _). reflexivity. Qed.

Definition expected : list mediaprovider.SearchResult.t :=
  [ mediaprovider.SearchResult.mk "Foo at the Bar" "al-1" "cv-al-1"
      mediaprovider.ContentTypeAlbum 12 "Ann, Bob";
    mediaprovider.SearchResult.mk "Foo Bar Band" "ar-1" "cv-ar-1"
      mediaprovider.ContentTypeArtist 4 "";
    mediaprovider.SearchResult.mk "Bar Foo" "tr-1" "cv-al-1"
      mediaprovider.ContentTypeTrack 215 "Ann";
    mediaprovider.SearchResult.mk "Foo Bar (live)" "tr-2" "cv-al-1"
      mediaprovider.ContentTypeTrack 301 "Ann";
    mediaprovider.SearchResult.mk "FOO bar baz" "pl-1" "cv-pl-1"
      mediaprovider.ContentTypePlaylist 3 "";
    mediaprovider.SearchResult.mk "Barfoo" "Barfoo" ""
      mediaprovider.ContentTypeGenre 2 "" ].

Example SearchAll_example :
  SearchAll client "foo  bar" 30 sched = Ret (expected, None).
Proof. vm_compute. reflexivity. Qed.

Example SearchAll_other_count :
  SearchAll client "foo  bar" 33 sched = Ret ([], Some "400").
Proof. vm_compute. reflexivity. Qed.

Example SearchAll_cut :
  SearchAll client "foo  bar" 5 [goSearch3; goPlaylists; goGenres]
  = Ret ([], Some "400")
  /\ truncate 5 expected = Ret (take 5 expected)
  /\ truncate (-1) expected = Panic.
Proof. repeat split; vm_compute; reflexivity. Qed.

End SearchExample.

Lemma SearchAll_failure_policy_witness :
  SubsonicProvider.SearchAll SearchExample.searchDown "foo  bar" 30 SearchExample.sched
  = Ret ([], Some "502")
  /\ exists results,
      SubsonicProvider.SearchAll SearchExample.playlistsDown "foo  bar" 30
        SearchExample.sched = Ret (results, None)
      /\ forall r, r ∈ results ->
           mediaprovider.SearchResult.Type_ r <> mediaprovider.ContentTypePlaylist.
Proof.
  assert (Hgenres : no_nil (SubsonicProvider.GetGenres SearchExample.client).1).
  { simpl. repeat constructor; eexists; reflexivity. }
  split.
  - destruct (SearchAll_failure_policy SearchExample.searchDown "foo  bar" 30
                SearchExample.sched SearchExample.sched_ok) as [Ha _].
    + intros _. simpl. repeat constructor; eexists; reflexivity.
    + intros _. exact Hgenres.
    + apply Ha. reflexivity.
  - destruct (SearchAll_failure_policy SearchExample.playlistsDown "foo  bar" 30
                SearchExample.sched SearchExample.sched_ok) as [_ Hb].
    + simpl. discriminate.
    + intros _. exact Hgenres.
    + destruct (Hb SearchExample.found) as (results & Hrun & Hpl & _).
      * vm_compute. reflexivity.
      * simpl. repeat constructor; eexists; reflexivity.
      * simpl. repeat constructor; eexists; reflexivity.
      * simpl. repeat constructor; eexists; reflexivity.
      * lia.
      * exists results. split; [exact Hrun|]. apply Hpl. simpl. discriminate.
Defined.

Lemma SearchAll_merge_order_witness :
  SubsonicProvider.SearchAll SearchExample.client "foo  bar" 30 SearchExample.sched
  = Ret (SearchExample.expected, None)
  /\ exists sr,
      SubsonicProvider.Search3 SearchExample.client "foo  bar"
        {[ "artistCount" := "10"; "albumCount" := "10"; "songCount" := "10" ]}
      = (Some sr, None)
      /\ Z.of_nat (length SearchExample.expected) <= 30.
Proof.
  split; [exact SearchExample.SearchAll_example|].
  destruct (SearchAll_merge_order SearchExample.client "foo  bar" 30
              SearchExample.sched SearchExample.expected
              SearchExample.sched_ok SearchExample.SearchAll_example)
    as (sr & Hreq & _ & _ & _ & _ & Hlen).
  exists sr. split; [exact Hreq | exact Hlen].
Defined.


(** ** [SetFavorite] *)

Module SetFavoriteFacts.
Import mediaprovider JellyfinProvider.
Local Open Scope nat_scope.

(** *** Pools of goroutines *)

(** Replacing the goroutine at a position. *)
Lemma pool_split (pool : list goroutine) k g g' :
  pool !! k = Some g ->
  exists l1 l2, pool = l1 ++ g :: l2 /\ <[k := g']> pool = l1 ++ g' :: l2.
Proof.
  revert k. induction pool as [|h pool IH]; intros [|k] H; try discriminate.
  - injection H as ->. exists [], pool. split; reflexivity.
  - destruct (IH k H) as (l1 & l2 & -> & Hi).
    exists (h :: l1), l2. split; [reflexivity|]. simpl. by rewrite Hi.
Qed.

Lemma runnableFrom_elem s pool k :
  k ∈ runnableFrom s pool ->
  exists g, pool !! (k - s) = Some g /\ finished g = false /\ s <= k.
Proof.
  revert s. induction pool as [|h pool IH]; intros s H; simpl in H.
  - by apply elem_of_nil in H.
  - destruct (finished h) eqn:Hh.
    + destruct (IH _ H) as (g & Hg & Hf & Hle). exists g.
      replace (k - s) with (S (k - S s)) by lia. split; [exact Hg|]. split; [exact Hf|lia].
    + apply elem_of_cons in H as [-> | H].
      * exists h. rewrite Nat.sub_diag. split; [reflexivity|]. split; [exact Hh|lia].
      * destruct (IH _ H) as (g & Hg & Hf & Hle). exists g.
        replace (k - s) with (S (k - S s)) by lia. split; [exact Hg|]. split; [exact Hf|lia].
Qed.

Lemma runnable_elem pool k :
  k ∈ runnable pool -> exists g, pool !! k = Some g /\ finished g = false.
Proof.
  intros H. apply runnableFrom_elem in H as (g & Hg & Hf & _).
  rewrite Nat.sub_0_r in Hg. eauto.
Qed.

Lemma runnableFrom_nil s pool :
  runnableFrom s pool = [] -> Forall (fun g => g = GDone) pool.
Proof.
  revert s. induction pool as [|h pool IH]; intros s H; [constructor|].
  destruct h; simpl in H; try discriminate. constructor; [reflexivity | eauto].
Qed.

(** The steps that a goroutine still has to make. *)
Definition stepsLeft (g : goroutine) : nat :=
  match g with
  | GStart _ => 3
  | GCalled _ => 2
  | GWrite _ => 1
  | GDone => 0
  end.

Fixpoint work (pool : list goroutine) : nat :=
  match pool with
  | [] => 0
  | g :: pool' => stepsLeft g + work pool'
  end.

Lemma work_app l1 l2 : work (l1 ++ l2) = work l1 + work l2.
Proof. induction l1 as [|g l1 IH]; [reflexivity|]. simpl. rewrite IH. lia. Qed.

Lemma work_started idxs : work (map GStart idxs) = 3 * length idxs.
Proof. induction idxs as [|i l IH]; [reflexivity|]. simpl in *. lia. Qed.

Lemma work_done pool : work pool = 0 -> Forall (fun g => g = GDone) pool.
Proof.
  induction pool as [|g pool IH]; [constructor|]. simpl. intros H.
  constructor; [destruct g; simpl in H; (reflexivity || lia) | apply IH; lia].
Qed.

(** The arguments of the goroutines that have not made their call. *)
Fixpoint pending (pool : list goroutine) : list nat :=
  match pool with
  | [] => []
  | GStart idx :: pool' => idx :: pending pool'
  | _ :: pool' => pending pool'
  end.

Lemma pending_app l1 l2 : pending (l1 ++ l2) = pending l1 ++ pending l2.
Proof.
  induction l1 as [|g l1 IH]; [reflexivity|]. destruct g; simpl; by rewrite IH.
Qed.

Lemma pending_started idxs : pending (map GStart idxs) = idxs.
Proof. induction idxs as [|i l IH]; [reflexivity|]. simpl. by rewrite IH. Qed.

Lemma pending_done pool : Forall (fun g => g = GDone) pool -> pending pool = [].
Proof. induction 1 as [|g l -> _ IH]; [reflexivity | exact IH]. Qed.

(** *** One batch *)

Section batch.
Variable respond : list Call -> string -> bool -> option Err.
Variable allIDs : list string.
Variable favorite : bool.

(** The ids at the given indices of [allIDs]. *)
Fixpoint idsOf (idxs : list nat) : list string :=
  match idxs with
  | [] => []
  | i :: idxs' =>
      match allIDs !! i with
      | Some id => id :: idsOf idxs'
      | None => idsOf idxs'
      end
  end.

Lemma idsOf_app l1 l2 : idsOf (l1 ++ l2) = idsOf l1 ++ idsOf l2.
Proof.
  induction l1 as [|i l1 IH]; [reflexivity|]. simpl.
  destruct (allIDs !! i); simpl; by rewrite IH.
Qed.

(** Some call of [cs] was answered with the error [e]. *)
Definition answered (cs : list Call) (e : Err) : Prop :=
  exists c, c ∈ cs /\ call_err c = Some e.

(** Every call of [cs] carries the answer that the backend gave it, the
    backend having received [h] before [cs]. *)
Fixpoint replay (h cs : list Call) : Prop :=
  match cs with
  | [] => True
  | c :: cs' =>
      call_err c = respond h (call_id c) (call_favorite c) /\ replay (h ++ [c]) cs'
  end.

Lemma replay_app h cs cs' :
  replay h (cs ++ cs') <-> replay h cs /\ replay (h ++ cs) cs'.
Proof.
  revert h. induction cs as [|c cs IH]; intros h; simpl.
  - rewrite app_nil_r. tauto.
  - rewrite IH, <- app_assoc. simpl. tauto.
Qed.

(** What holds of a batch while it runs.  [err0] and [calls0] are the
    variable [err] and the calls at the start of the batch, [idxs] the
    arguments of its goroutines, [cs] the calls made in it so far. *)
Record batchInv (err0 : option Err) (calls0 : list Call) (idxs : list nat)
    (m : machine) (cs : list Call) : Prop := {
  inv_calls : m_calls m = calls0 ++ cs;
  inv_ids : map call_id cs ++ idsOf (pending (m_pool m)) ≡ₚ idsOf idxs;
  inv_range : Forall (fun i => is_Some (allIDs !! i)) (pending (m_pool m));
  inv_fav : Forall (fun c => call_favorite c = favorite) cs;
  inv_replay : replay calls0 cs;
  inv_err :
    m_err m = err0 \/ (err0 = None /\ exists e, m_err m = Some e /\ answered cs e);
  inv_write : forall e, GWrite e ∈ m_pool m -> err0 = None /\ answered cs e;
  inv_called : forall e, GCalled (Some e) ∈ m_pool m -> answered cs e;
  inv_live :
    forall e, answered cs e ->
      m_err m <> None
      \/ exists e', GWrite e' ∈ m_pool m \/ GCalled (Some e') ∈ m_pool m
}.

Lemma answered_snoc cs c e :
  answered (cs ++ [c]) e <-> answered cs e \/ call_err c = Some e.
Proof.
  unfold answered. split.
  - intros (c' & Hc & He). apply elem_of_app in Hc as [Hc | Hc]; [eauto|].
    apply list_elem_of_singleton in Hc as ->. auto.
  - intros [(c' & Hc & He) | He].
    + exists c'. split; [apply elem_of_app; auto | exact He].
    + exists c. split; [apply elem_of_app; right; by left | exact He].
Qed.

Lemma batchInv_start err0 calls0 idxs :
  Forall (fun i => is_Some (allIDs !! i)) idxs ->
  batchInv err0 calls0 idxs
    {| m_err := err0; m_calls := calls0; m_pool := map GStart idxs |} [].
Proof.
  intros Hr. split; simpl; rewrite ?pending_started; auto.
  - by rewrite app_nil_r.
  - intros e He. apply list_elem_of_fmap in He as (i & Hi & _). discriminate.
  - intros e He. apply list_elem_of_fmap in He as (i & Hi & _). discriminate.
  - intros e (c & Hc & _). by apply elem_of_nil in Hc.
Qed.

Lemma step_preserves err0 calls0 idxs m cs k g :
  batchInv err0 calls0 idxs m cs ->
  m_pool m !! k = Some g ->
  finished g = false ->
  exists m' cs',
    step respond allIDs favorite k m = Ret m'
    /\ batchInv err0 calls0 idxs m' cs'
    /\ work (m_pool m') < work (m_pool m).
Proof.
  intros [Hcalls Hids Hrange Hfav Hreplay Herr Hwrite Hcalled Hlive] Hk Hf.
  unfold step. rewrite Hk. destruct g as [idx | newErr | e |]; [| | |discriminate].
  - (* the call *)
    destruct (pool_split _ k _ (GCalled (respond (m_calls m)
                (default "" (allIDs !! idx)) favorite)) Hk)
      as (l1 & l2 & Hp & Hi).
    rewrite Hp, pending_app in Hrange, Hids. simpl in Hrange, Hids.
    apply Forall_app in Hrange as [Hr1 Hr2]. apply Forall_cons in Hr2 as [[id Hid] Hr2].
    rewrite Hid in *. simpl in Hi.
    set (c := Build_Call id favorite (respond (m_calls m) id favorite)).
    exists {| m_err := m_err m; m_calls := m_calls m ++ [c];
              m_pool := <[k := GCalled (respond (m_calls m) id favorite)]> (m_pool m) |},
      (cs ++ [c]).
    split; [reflexivity|]. rewrite Hi. split; [split; simpl|].
    + by rewrite Hcalls, <- app_assoc.
    + rewrite pending_app. simpl. rewrite <- Hids, idsOf_app, map_app. simpl.
      rewrite !idsOf_app. simpl. rewrite Hid.
      rewrite <- !app_assoc. apply Permutation_app_head. simpl.
      by rewrite Permutation_middle.
    + rewrite pending_app. simpl. apply Forall_app. auto.
    + apply Forall_app. split; [exact Hfav|]. by repeat constructor.
    + apply replay_app. split; [exact Hreplay|]. simpl.
      rewrite <- Hcalls. auto.
    + destruct Herr as [He | (He0 & e & He & Ha)]; [by left|].
      right. split; [exact He0|]. exists e. split; [exact He|].
      apply answered_snoc. by left.
    + intros e He. destruct (Hwrite e) as [He0 Ha].
      { rewrite Hp. rewrite !elem_of_app, !elem_of_cons in *.
        destruct He as [He | [He | He]]; auto; discriminate. }
      split; [exact He0|]. apply answered_snoc. by left.
    + intros e He. apply answered_snoc.
      rewrite !elem_of_app, !elem_of_cons in He.
      destruct He as [He | [He | He]].
      * left. apply Hcalled. rewrite Hp, elem_of_app. auto.
      * right. subst c. simpl. congruence.
      * left. apply Hcalled. rewrite Hp, elem_of_app, elem_of_cons. auto.
    + intros e He. apply answered_snoc in He as [He | He].
      * destruct (Hlive e He) as [Hn | (e' & Hw)]; [by left|]. right. exists e'.
        rewrite Hp in Hw. rewrite !elem_of_app, !elem_of_cons in *.
        destruct Hw as [[Hw | [Hw | Hw]] | [Hw | [Hw | Hw]]]; auto; discriminate.
      * right. exists e. right. rewrite elem_of_app, elem_of_cons.
        right. left. subst c. simpl in He. by rewrite He.
    + simpl. rewrite Hp. repeat rewrite work_app. simpl. lia.
  - (* the test of [err] *)
    destruct (m_err m) as [e0|] eqn:Em; [|destruct newErr as [e|]].
    + destruct (pool_split _ k _ GDone Hk) as (l1 & l2 & Hp & Hi).
      exists {| m_err := Some e0; m_calls := m_calls m;
                m_pool := <[k := GDone]> (m_pool m) |}, cs.
      split; [by destruct newErr|]. rewrite Hi. split; [split; simpl|].
      * exact Hcalls.
      * rewrite Hp, pending_app in Hids. by rewrite pending_app.
      * rewrite Hp, pending_app in Hrange. by rewrite pending_app.
      * exact Hfav.
      * exact Hreplay.
      * exact Herr.
      * intros e He. apply Hwrite. rewrite Hp.
        rewrite !elem_of_app, !elem_of_cons in *.
        destruct He as [He | [He | He]]; auto; discriminate.
      * intros e He. apply Hcalled. rewrite Hp.
        rewrite !elem_of_app, !elem_of_cons in *.
        destruct He as [He | [He | He]]; auto; discriminate.
      * intros e He. by left.
      * simpl. rewrite Hp. repeat rewrite work_app. simpl. lia.
    + destruct (pool_split _ k _ (GWrite e) Hk) as (l1 & l2 & Hp & Hi).
      exists {| m_err := None; m_calls := m_calls m;
                m_pool := <[k := GWrite e]> (m_pool m) |}, cs.
      split; [reflexivity|]. rewrite Hi. split; [split; simpl|].
      * exact Hcalls.
      * rewrite Hp, pending_app in Hids. by rewrite pending_app.
      * rewrite Hp, pending_app in Hrange. by rewrite pending_app.
      * exact Hfav.
      * exact Hreplay.
      * exact Herr.
      * intros e' He. rewrite !elem_of_app, !elem_of_cons in He.
        destruct He as [He | [He | He]].
        -- apply Hwrite. rewrite Hp, elem_of_app. auto.
        -- injection He as ->. split.
           ++ destruct Herr as [He | (He & _)]; congruence.
           ++ apply Hcalled. rewrite Hp, elem_of_app, elem_of_cons. auto.
        -- apply Hwrite. rewrite Hp, elem_of_app, elem_of_cons. auto.
      * intros e' He. apply Hcalled. rewrite Hp.
        rewrite !elem_of_app, !elem_of_cons in *.
        destruct He as [He | [He | He]]; auto; discriminate.
      * intros e' He. right. exists e. left.
        rewrite elem_of_app, elem_of_cons. auto.
      * simpl. rewrite Hp. repeat rewrite work_app. simpl. lia.
    + destruct (pool_split _ k _ GDone Hk) as (l1 & l2 & Hp & Hi).
      exists {| m_err := None; m_calls := m_calls m;
                m_pool := <[k := GDone]> (m_pool m) |}, cs.
      split; [reflexivity|]. rewrite Hi. split; [split; simpl|].
      * exact Hcalls.
      * rewrite Hp, pending_app in Hids. by rewrite pending_app.
      * rewrite Hp, pending_app in Hrange. by rewrite pending_app.
      * exact Hfav.
      * exact Hreplay.
      * exact Herr.
      * intros e He. apply Hwrite. rewrite Hp.
        rewrite !elem_of_app, !elem_of_cons in *.
        destruct He as [He | [He | He]]; auto; discriminate.
      * intros e He. apply Hcalled. rewrite Hp.
        rewrite !elem_of_app, !elem_of_cons in *.
        destruct He as [He | [He | He]]; auto; discriminate.
      * intros e He. destruct (Hlive e He) as [Hn | (e' & Hw)]; [congruence|].
        right. exists e'. rewrite Hp in Hw.
        rewrite !elem_of_app, !elem_of_cons in *.
        destruct Hw as [[Hw | [Hw | Hw]] | [Hw | [Hw | Hw]]]; auto; discriminate.
      * simpl. rewrite Hp. repeat rewrite work_app. simpl. lia.
  - (* the assignment to [err] *)
    destruct (pool_split _ k _ GDone Hk) as (l1 & l2 & Hp & Hi).
    exists {| m_err := Some e; m_calls := m_calls m;
              m_pool := <[k := GDone]> (m_pool m) |}, cs.
    split; [reflexivity|]. rewrite Hi.
    destruct (Hwrite e) as [He0 Ha].
    { rewrite Hp, elem_of_app, elem_of_cons. auto. }
    split; [split; simpl|].
    + exact Hcalls.
    + rewrite Hp, pending_app in Hids. by rewrite pending_app.
    + rewrite Hp, pending_app in Hrange. by rewrite pending_app.
    + exact Hfav.
    + exact Hreplay.
    + right. eauto.
    + intros e' He. apply Hwrite. rewrite Hp.
      rewrite !elem_of_app, !elem_of_cons in *.
      destruct He as [He | [He | He]]; auto; discriminate.
    + intros e' He. apply Hcalled. rewrite Hp.
      rewrite !elem_of_app, !elem_of_cons in *.
      destruct He as [He | [He | He]]; auto; discriminate.
    + intros e' He. by left.
    + simpl. rewrite Hp. repeat rewrite work_app. simpl. lia.
Qed.

(** Whatever the scheduler picks, the batch comes to its end: every
    goroutine finishes and [wg.Wait()] returns. *)
Lemma run_complete err0 calls0 idxs fuel pick :
  forall t m cs,
    batchInv err0 calls0 idxs m cs ->
    work (m_pool m) <= fuel ->
    exists m' cs',
      run respond allIDs favorite fuel pick t m = Ret m'
      /\ batchInv err0 calls0 idxs m' cs'
      /\ Forall (fun g => g = GDone) (m_pool m').
Proof.
  induction fuel as [|fuel IH]; intros t m cs Hinv Hwork.
  - exists m, cs. split; [reflexivity|]. split; [exact Hinv|].
    apply work_done. lia.
  - cbn [run]. destruct (runnable (m_pool m)) as [|k0 r] eqn:Hr.
    + exists m, cs. split; [reflexivity|]. split; [exact Hinv|].
      by apply (runnableFrom_nil 0).
    + set (k := nth (pick t mod length (k0 :: r)) (k0 :: r) k0).
      assert (Hk : k ∈ runnable (m_pool m)).
      { rewrite Hr. apply list_elem_of_In, nth_In.
        apply (Nat.mod_upper_bound _ (length (k0 :: r))). discriminate. }
      apply runnable_elem in Hk as (g & Hg & Hf).
      destruct (step_preserves _ _ _ _ _ _ _ Hinv Hg Hf) as (m1 & cs1 & -> & Hinv1 & Hlt).
      apply (IH (S t) m1 cs1 Hinv1). lia.
Qed.

(** The variable [err] after a batch that made the calls [cs]. *)
Definition batchErr (err0 : option Err) (cs : list Call) (err' : option Err) : Prop :=
  match err0 with
  | Some e0 => err' = Some e0
  | None =>
      (exists e, err' = Some e /\ answered cs e)
      \/ (err' = None /\ forall e, ~ answered cs e)
  end.

Lemma batchInv_end err0 calls0 idxs m cs :
  batchInv err0 calls0 idxs m cs ->
  Forall (fun g => g = GDone) (m_pool m) ->
  map call_id cs ≡ₚ idsOf idxs /\ batchErr err0 cs (m_err m).
Proof.
  intros [Hcalls Hids Hrange Hfav Hreplay Herr Hwrite Hcalled Hlive] Hdone. split.
  - rewrite (pending_done _ Hdone) in Hids. simpl in Hids. by rewrite app_nil_r in Hids.
  - assert (Hno : forall g, g ∈ m_pool m -> g = GDone).
    { by apply Forall_forall. }
    unfold batchErr. destruct err0 as [e0|].
    + destruct Herr as [He | (He & _)]; [exact He | discriminate].
    + destruct Herr as [He | (_ & e & He & Ha)]; [|left; eauto].
      right. split; [exact He|]. intros e Ha.
      destruct (Hlive e Ha) as [Hn | (e' & [Hw | Hw])]; [congruence| |];
        apply Hno in Hw; discriminate.
Qed.

Lemma batchIndices_ids n : forall i offs,
  idsOf (batchIndices allIDs n i offs) = take n (drop (offs + i) allIDs)
  /\ Forall (fun i => is_Some (allIDs !! i)) (batchIndices allIDs n i offs).
Proof.
  induction n as [|n IH]; intros i offs; simpl.
  - split; [reflexivity | constructor].
  - destruct (Nat.ltb_spec (offs + i) (length allIDs)) as [Hlt | Hge].
    + destruct (lookup_lt_is_Some_2 _ _ Hlt) as [id Hid].
      destruct (IH (S i) offs) as [Hids Hr]. simpl. rewrite Hid, Hids.
      rewrite (drop_S _ _ _ Hid). simpl.
      replace (offs + S i) with (S (offs + i)) by lia.
      split; [reflexivity|]. constructor; eauto.
    + rewrite drop_ge by lia. split; [reflexivity | constructor].
Qed.

Lemma batchSetFavorite_spec pick offs err calls :
  exists m' cs,
    batchSetFavorite respond allIDs favorite pick offs err calls = Ret m'
    /\ m_calls m' = calls ++ cs
    /\ map call_id cs ≡ₚ take batchSize (drop offs allIDs)
    /\ Forall (fun c => call_favorite c = favorite) cs
    /\ replay calls cs
    /\ batchErr err cs (m_err m').
Proof.
  unfold batchSetFavorite.
  destruct (batchIndices_ids batchSize 0 offs) as [Hids Hrange].
  rewrite Nat.add_0_r in Hids.
  destruct (run_complete err calls (batchIndices allIDs batchSize 0 offs)
              (3 * length (map GStart (batchIndices allIDs batchSize 0 offs)))
              pick 0 _ [] (batchInv_start _ _ _ Hrange))
    as (m' & cs & Hrun & Hinv & Hdone).
  { cbn [m_pool]. rewrite work_started, length_map. lia. }
  exists m', cs. split; [exact Hrun|].
  destruct (batchInv_end _ _ _ _ _ Hinv Hdone) as [Hperm Herr].
  rewrite Hids in Hperm. destruct Hinv. auto 10.
Qed.

(** *** The loop over the batches *)

(** The ids of batch number [k]. *)
Definition chunk (k : nat) : list string :=
  take batchSize (drop (k * batchSize) allIDs).

(** [bs] are the calls of consecutive batches, the first of which is batch
    number [i] and starts when the backend has received [h]. *)
Fixpoint batchesOk (i : nat) (h : list Call) (bs : list (list Call)) : Prop :=
  match bs with
  | [] => True
  | b :: bs' =>
      (map call_id b ≡ₚ chunk i
       /\ Forall (fun c => call_favorite c = favorite) b
       /\ replay h b)
      /\ batchesOk (S i) (h ++ b) bs'
  end.

(** The variable [err] through consecutive batches. *)
Fixpoint loopErr (err0 : option Err) (bs : list (list Call)) (err' : option Err)
  : Prop :=
  match bs with
  | [] => err' = err0
  | b :: bs' => exists e1, batchErr err0 b e1 /\ loopErr e1 bs' err'
  end.

Lemma batchLoop_spec sched n : forall i err calls,
  exists err' bs,
    batchLoop respond allIDs favorite sched n i err calls
    = Ret (err', calls ++ concat bs)
    /\ length bs = n
    /\ batchesOk i calls bs
    /\ loopErr err bs err'.
Proof.
  induction n as [|n IH]; intros i err calls.
  - exists err, []. simpl. rewrite app_nil_r. auto.
  - cbn [batchLoop].
    destruct (batchSetFavorite_spec (sched i) (i * batchSize) err calls)
      as (m' & cs & -> & Hc & Hperm & Hfav & Hrep & Herr).
    cbn [mbind go_mbind go_bind].
    destruct (IH (S i) (m_err m') (m_calls m')) as (err' & bs & -> & Hlen & Hok & Hle).
    exists err', (cs :: bs). rewrite Hc in *. simpl. rewrite <- app_assoc.
    split; [reflexivity|]. split; [by rewrite Hlen|]. split; [auto|]. eauto.
Qed.

(** The error that [SetFavorite] returns, in terms of the batches: it is an
    error answered in the first batch in which a call failed, and there is
    none when no call failed. *)
Fixpoint firstError (bs : list (list Call)) (err : option Err) : Prop :=
  match bs with
  | [] => err = None
  | b :: bs' =>
      (exists e, err = Some e /\ answered b e)
      \/ ((forall e, ~ answered b e) /\ firstError bs' err)
  end.

Lemma loopErr_kept e0 bs err' : loopErr (Some e0) bs err' -> err' = Some e0.
Proof.
  revert err'. induction bs as [|b bs IH]; intros err' H; simpl in H; [exact H|].
  destruct H as (e1 & -> & H). eauto.
Qed.

Lemma loopErr_first bs err' : loopErr None bs err' -> firstError bs err'.
Proof.
  revert err'. induction bs as [|b bs IH]; intros err' H; simpl in *; [exact H|].
  destruct H as (e1 & [(e & -> & Ha) | (-> & Hno)] & H).
  - left. exists e. split; [by apply loopErr_kept in H | exact Ha].
  - right. auto.
Qed.

Lemma batchesOk_lookup bs : forall i h k b,
  batchesOk i h bs ->
  bs !! k = Some b ->
  map call_id b ≡ₚ chunk (i + k)
  /\ Forall (fun c => call_favorite c = favorite) b.
Proof.
  induction bs as [|b0 bs IH]; intros i h k b Hok Hk; [discriminate|].
  destruct Hok as [(Hp & Hf & _) Hok]. destruct k as [|k]; simpl in Hk.
  - injection Hk as <-. rewrite Nat.add_0_r. auto.
  - replace (i + S k) with (S i + k) by lia. eauto.
Qed.

Lemma batchesOk_replay bs : forall i h, batchesOk i h bs -> replay h (concat bs).
Proof.
  induction bs as [|b bs IH]; intros i h Hok; simpl; [exact I|].
  destruct Hok as [(_ & _ & Hr) Hok]. apply replay_app. eauto.
Qed.

Lemma batchesOk_ids bs : forall i h,
  batchesOk i h bs ->
  map call_id (concat bs) ≡ₚ concat (map chunk (seq i (length bs))).
Proof.
  induction bs as [|b bs IH]; intros i h Hok; simpl; [reflexivity|].
  destruct Hok as [(Hp & _ & _) Hok]. rewrite map_app, Hp.
  apply Permutation_app_head. eauto.
Qed.

End batch.

(** Cutting a list in chunks and gluing them gives the list back. *)
Lemma chunks_concat n : forall l : list string,
  length l <= n * batchSize ->
  concat (map (chunk l) (seq 0 n)) = l.
Proof.
  induction n as [|n IH]; intros l Hl.
  - destruct l; [reflexivity | simpl in Hl; lia].
  - change (seq 0 (S n)) with (0 :: seq 1 n). rewrite <- seq_shift.
    cbn [map concat]. rewrite map_map.
    transitivity (take batchSize l ++ drop batchSize l); [|apply take_drop].
    f_equal. rewrite <- (IH (drop batchSize l)) at 1.
    + f_equal. apply map_ext. intros k. unfold chunk. by rewrite drop_drop.
    + rewrite length_drop. unfold batchSize in *. lia.
Qed.

Lemma ceilDiv_bounds n : n <= 5 * ceilDiv n 5 < n + 5.
Proof.
  unfold ceilDiv. pose proof (Nat.div_mod_eq n 5) as Hd.
  pose proof (Nat.mod_upper_bound n 5 ltac:(discriminate)) as Hm.
  destruct (Nat.eqb_spec (n mod 5) 0); lia.
Qed.

End SetFavoriteFacts.

(** C2.  [SetFavorite], for every backend, every scheduler and every list
    of ids ([N] ids: the album ids, then the artist ids, then the track
    ids).  It returns, and the calls that the backend receives during it
    fall into consecutive batches such that
    - there are exactly [ceil(N/5)] batches, none of them empty;
    - batch number [k] holds, in some order, one call for each of the ids
      at positions [5k .. 5k+4] of the list, and so at most 5 calls, all
      of them with the requested [favorite];
    - all in all every id is called exactly once, also after a failure;
    - every call carries the answer of the backend;
    - the returned error is an error answered in the first batch in which
      a call failed, and nil when no call failed. *)
Theorem SetFavorite_batches respond sched params favorite calls :
  let allIDs :=
    mediaprovider.RatingFavoriteParameters.AlbumIDs params
    ++ mediaprovider.RatingFavoriteParameters.ArtistIDs params
    ++ mediaprovider.RatingFavoriteParameters.TrackIDs params in
  let N := length allIDs in
  exists err batches,
    JellyfinProvider.SetFavorite respond sched params favorite calls
    = Ret (err, calls ++ concat batches)
    /\ (N <= 5 * length batches < N + 5)%nat
    /\ (forall k b,
         batches !! k = Some b ->
         (0 < length b <= 5)%nat
         /\ map JellyfinProvider.call_id b ≡ₚ take 5 (drop (k * 5) allIDs)
         /\ Forall (fun c => JellyfinProvider.call_favorite c = favorite) b)
    /\ map JellyfinProvider.call_id (concat batches) ≡ₚ allIDs
    /\ SetFavoriteFacts.replay respond calls (concat batches)
    /\ SetFavoriteFacts.firstError batches err.
Proof.
  intros allIDs N. unfold JellyfinProvider.SetFavorite. fold allIDs.
  destruct (SetFavoriteFacts.batchLoop_spec respond allIDs favorite sched
              (JellyfinProvider.ceilDiv (length allIDs) JellyfinProvider.batchSize)
              0%nat None calls) as (err & bs & Hrun & Hlen & Hok & Herr).
  pose proof (SetFavoriteFacts.ceilDiv_bounds N) as Hceil.
  change (JellyfinProvider.ceilDiv (length allIDs) JellyfinProvider.batchSize)
    with (JellyfinProvider.ceilDiv N 5) in Hlen.
  exists err, bs. split; [exact Hrun|]. rewrite Hlen. split; [exact Hceil|].
  split; [|split; [|split]].
  - intros k b Hk.
    destruct (SetFavoriteFacts.batchesOk_lookup _ _ _ _ _ _ _ _ Hok Hk) as [Hp Hf].
    apply lookup_lt_Some in Hk. rewrite Hlen in Hk.
    unfold SetFavoriteFacts.chunk, JellyfinProvider.batchSize in Hp. simpl in Hp.
    split; [|auto].
    apply Permutation_length in Hp. rewrite length_map in Hp. rewrite Hp.
    rewrite length_take, length_drop. fold N. lia.
  - rewrite (SetFavoriteFacts.batchesOk_ids _ _ _ _ _ _ Hok), Hlen.
    rewrite SetFavoriteFacts.chunks_concat; [reflexivity|].
    fold N. unfold JellyfinProvider.batchSize. lia.
  - exact (SetFavoriteFacts.batchesOk_replay _ _ _ _ _ _ Hok).
  - exact (SetFavoriteFacts.loopErr_first _ _ Herr).
Qed.

(** ** Seven ids, three of which the backend refuses *)

Module SetFavoriteExample.
Import mediaprovider JellyfinProvider.

Definition params : RatingFavoriteParameters.t := {|
  RatingFavoriteParameters.AlbumIDs := ["a1"; "a2"];
  RatingFavoriteParameters.ArtistIDs := ["r1"];
  RatingFavoriteParameters.TrackIDs := ["t1"; "t2"; "t3"; "t4"]
|}.

(** Refuses [a2], [r1] and [t4], whatever it has received before. *)
Definition respond (h : list Call) (id : string) (favorite : bool) : option Err :=
  if String.eqb id "a2" then Some "no a2"
  else if String.eqb id "r1" then Some "no r1"
  else if String.eqb id "t4" then Some "no t4"
  else None.

(** Runs the goroutines one after the other, in the order of their start. *)
Definition inOrder (batch step : nat) : nat := 0%nat.

(** Lets every goroutine of the first batch make its call, then the two
    that were refused test [err] before either of them assigns to it. *)
Definition roundRobin (batch step : nat) : nat :=
  match batch, step with
  | O, 1%nat | O, 2%nat | O, 3%nat | O, 4%nat => step
  | O, 7%nat => 1%nat
  | _, _ => 0%nat
  end.

Definition call (id : string) : Call := Build_Call id true (respond [] id true).

Example SetFavorite_inOrder :
  SetFavorite respond inOrder params true []
  = Ret (Some "no a2", map call ["a1"; "a2"; "r1"; "t1"; "t2"; "t3"; "t4"]).
Proof. vm_compute. reflexivity. Qed.

(** After eight steps of the first batch both refused goroutines have
    found [err] nil and are about to assign to it. *)
Example roundRobin_midway :
  run respond ["a1"; "a2"; "r1"; "t1"; "t2"; "t3"; "t4"] true 8 (roundRobin 0) 0
    {| m_err := None; m_calls := [];
       m_pool := [GStart 0; GStart 1; GStart 2; GStart 3; GStart 4] |}
  = Ret {| m_err := None;
           m_calls := map call ["a1"; "a2"; "r1"; "t1"; "t2"];
           m_pool := [GDone; GWrite "no a2"; GWrite "no r1";
                      GCalled None; GCalled None] |}.
Proof. vm_compute. reflexivity. Qed.

(** The one that assigns last decides the returned error. *)
Example SetFavorite_roundRobin :
  SetFavorite respond roundRobin params true []
  = Ret (Some "no r1", map call ["a1"; "a2"; "r1"; "t1"; "t2"; "t3"; "t4"]).
Proof. vm_compute. reflexivity. Qed.

End SetFavoriteExample.

(* ===================================================================== *)
(** * Further properties of [searchall.go] *)
(* ===================================================================== *)

Module SearchMore.
Import mediaprovider SubsonicProvider SearchFacts SearchTheory.

Global Instance ContentType_eq_dec : EqDecision ContentType.
Proof. solve_decision. Defined.

(** The entries of a result list that have the given type, in order. *)
Definition ofType (t : ContentType) (results : list SearchResult.t)
  : list SearchResult.t :=
  List.filter (fun r => bool_decide (SearchResult.Type_ r = t)) results.

Lemma ofType_app t l1 l2 : ofType t (l1 ++ l2) = ofType t l1 ++ ofType t l2.
Proof. apply List.filter_app. Qed.

Lemma ofType_map {A} (entry : A -> SearchResult.t) t t' (xs : list A) :
  (forall x, SearchResult.Type_ (entry x) = t') ->
  ofType t (map entry xs) = if bool_decide (t' = t) then map entry xs else [].
Proof.
  intros Ht. induction xs as [|x xs IH]; simpl.
  - by destruct (bool_decide (t' = t)).
  - rewrite Ht. fold (ofType t (map entry xs)). rewrite IH.
    by destruct (bool_decide (t' = t)).
Qed.

(** [mergeResults] returns exactly when the search result is there and no
    list holds a nil record. *)
Lemma mergeResults_inv res pl gn r :
  mergeResults res pl gn = Ret r ->
  exists sr, res = Some sr
    /\ no_nil (subsonic.SearchResult3.Album sr)
    /\ no_nil (subsonic.SearchResult3.Artist sr)
    /\ no_nil (subsonic.SearchResult3.Song sr)
    /\ no_nil pl /\ no_nil gn
    /\ r = merged sr (records pl) (records gn).
Proof.
  destruct res as [sr|]; [|discriminate]. intros H. pose proof H as H0.
  unfold mergeResults in H. cbn [deref mbind go_mbind go_bind] in H.
  apply go_bind_Ret in H as (r1 & H1 & H).
  apply go_bind_Ret in H as (r2 & H2 & H).
  apply go_bind_Ret in H as (r3 & H3 & H).
  apply go_bind_Ret in H as (r4 & H4 & H5).
  apply appendResults_Ret in H1 as [Ha _], H2 as [Hb _], H3 as [Hc _],
    H4 as [Hd _], H5 as [He _].
  pose proof (proj1 (no_nil_records _) Hd) as Hpl.
  pose proof (proj1 (no_nil_records _) He) as Hgn.
  rewrite Hpl, Hgn in H0.
  rewrite (mergeResults_Some sr _ _ Ha Hb Hc) in H0. injection H0 as <-.
  exists sr. auto 10.
Qed.

Lemma mergeResults_defined sr pl gn :
  no_nil (subsonic.SearchResult3.Album sr) ->
  no_nil (subsonic.SearchResult3.Artist sr) ->
  no_nil (subsonic.SearchResult3.Song sr) ->
  no_nil pl -> no_nil gn ->
  mergeResults (Some sr) pl gn = Ret (merged sr (records pl) (records gn)).
Proof.
  intros Ha Hb Hc Hd He.
  apply no_nil_records in Hd, He. rewrite Hd, He at 1.
  by apply mergeResults_Some.
Qed.

End SearchMore.

(** X1.  [mergeResults] keeps the five kinds apart and in order: selecting
    the entries of one [Type] from its result gives back the entries made
    of the albums, of the artists, of the songs, of the playlists or of the
    genres it was given, each in the order given; no entry is added or
    lost. *)
Theorem mergeResults_by_type res playlists genres results :
  SubsonicProvider.mergeResults res playlists genres = Ret results ->
  exists sr,
    res = Some sr
    /\ SearchMore.ofType mediaprovider.ContentTypeAlbum results
       = map SubsonicProvider.albumResult (records (subsonic.SearchResult3.Album sr))
    /\ SearchMore.ofType mediaprovider.ContentTypeArtist results
       = map SubsonicProvider.artistResult (records (subsonic.SearchResult3.Artist sr))
    /\ SearchMore.ofType mediaprovider.ContentTypeTrack results
       = map SubsonicProvider.trackResult (records (subsonic.SearchResult3.Song sr))
    /\ SearchMore.ofType mediaprovider.ContentTypePlaylist results
       = map SubsonicProvider.playlistResult (records playlists)
    /\ SearchMore.ofType mediaprovider.ContentTypeGenre results
       = map SubsonicProvider.genreResult (records genres)
    /\ length results
       = (length (subsonic.SearchResult3.Album sr)
          + length (subsonic.SearchResult3.Artist sr)
          + length (subsonic.SearchResult3.Song sr)
          + length playlists + length genres)%nat.
Proof.
  intros H.
  apply SearchMore.mergeResults_inv in H as (sr & -> & Ha & Hb & Hc & Hd & He & ->).
  exists sr. split; [reflexivity|]. unfold SearchFacts.merged.
  rewrite !SearchMore.ofType_app.
  rewrite !(SearchMore.ofType_map SubsonicProvider.albumResult _
              mediaprovider.ContentTypeAlbum) by reflexivity.
  rewrite !(SearchMore.ofType_map SubsonicProvider.artistResult _
              mediaprovider.ContentTypeArtist) by reflexivity.
  rewrite !(SearchMore.ofType_map SubsonicProvider.trackResult _
              mediaprovider.ContentTypeTrack) by reflexivity.
  rewrite !(SearchMore.ofType_map SubsonicProvider.playlistResult _
              mediaprovider.ContentTypePlaylist) by reflexivity.
  rewrite !(SearchMore.ofType_map SubsonicProvider.genreResult _
              mediaprovider.ContentTypeGenre) by reflexivity.
  cbn [bool_decide decide_rel]. simpl. rewrite !app_nil_r.
  repeat split; try reflexivity.
  apply no_nil_records in Ha, Hb, Hc, Hd, He.
  rewrite Ha, Hb, Hc, Hd, He at 2.
  rewrite !length_app, !length_map. lia.
Qed.

Module SearchPanics.
Import mediaprovider SubsonicProvider SearchFacts SearchTheory.

Lemma no_nil_dec {A} (l : list (ptr A)) : {no_nil l} + {~ no_nil l}.
Proof.
  induction l as [|p l [IH | IH]].
  - left. constructor.
  - destruct p as [a|].
    + left. constructor; eauto.
    + right. intros H. apply Forall_cons in H as [[a Ha] _]. discriminate.
  - right. intros H. apply Forall_cons in H as [_ H]. contradiction.
Qed.

(** A filter goroutine panics exactly on a nil record of a successful
    answer. *)
Lemma filterPart_Panic {A} query (Name : A -> string) answer :
  filterPart query Name answer = Panic <-> answer.2 = None /\ ~ no_nil answer.1.
Proof.
  split.
  - intros H. destruct (answer.2) as [e|] eqn:E.
    + unfold filterPart in H. rewrite E in H. discriminate.
    + split; [reflexivity|]. intros Hn.
      destruct (filterPart_Some query Name answer) as (u & Hu & _); [auto|].
      congruence.
  - intros [He Hn]. destruct (filterPart query Name answer) as [u|] eqn:E;
      [|reflexivity].
    apply filterPart_Ret in E as [Hl _]. destruct Hn. auto.
Qed.

Lemma truncate_Panic maxResults l : truncate maxResults l = Panic <-> maxResults < 0.
Proof.
  unfold truncate. destruct (Z.ltb_spec maxResults (Z.of_nat (length l))).
  - destruct (Z.ltb_spec maxResults 0); split; (done || lia).
  - split; [discriminate | lia].
Qed.

Lemma mergeResults_Panic res pls gns :
  mergeResults res (map Some pls) (map Some gns) = Panic
  <-> match res with
      | None => True
      | Some sr =>
          ~ (no_nil (subsonic.SearchResult3.Album sr)
             /\ no_nil (subsonic.SearchResult3.Artist sr)
             /\ no_nil (subsonic.SearchResult3.Song sr))
      end.
Proof.
  destruct res as [sr|]; [|split; auto]. split.
  - intros H (Ha & Hb & Hc). rewrite mergeResults_Some in H by assumption.
    discriminate.
  - intros Hn. destruct (mergeResults _ _ _) eqn:E; [|reflexivity].
    apply mergeResults_Ret in E as (sr' & [= <-] & Ha & Hb & Hc & _).
    destruct Hn. auto.
Qed.

End SearchPanics.

(** X2.  When [SearchAll] panics.  Whatever the order in which its three
    sub-queries finish, [SearchAll] panics in these cases and in no other:
    a successful playlist or genre answer holds a nil record; or the
    primary search returns no error together with a nil result, or with a
    result one of whose lists holds a nil record, or with [maxResults]
    below zero. *)
Theorem SearchAll_panics client searchQuery maxResults sched :
  let primary :=
    SubsonicProvider.Search3 client searchQuery
      (SubsonicProvider.search3Params maxResults) in
  let playlists := SubsonicProvider.GetPlaylists client ∅ in
  let genres := SubsonicProvider.GetGenres client in
  SubsonicProvider.searchSchedule sched ->
  SubsonicProvider.SearchAll client searchQuery maxResults sched = Panic
  <-> (playlists.2 = None /\ ~ no_nil playlists.1)
      \/ (genres.2 = None /\ ~ no_nil genres.1)
      \/ (primary.2 = None
          /\ match primary.1 with
             | None => True
             | Some sr =>
                 ~ (no_nil (subsonic.SearchResult3.Album sr)
                    /\ no_nil (subsonic.SearchResult3.Artist sr)
                    /\ no_nil (subsonic.SearchResult3.Song sr))
                 \/ maxResults < 0
             end).
Proof.
  intros primary playlists genres Hs.
  rewrite (SearchFacts.SearchAll_any_schedule client searchQuery maxResults sched Hs).
  fold playlists genres.
  change (SearchFacts.primary client searchQuery maxResults) with primary.
  pose proof (SearchPanics.filterPart_Panic searchQuery subsonic.Playlist.Name playlists)
    as Hpl.
  pose proof (SearchPanics.filterPart_Panic searchQuery subsonic.Genre.Name genres)
    as Hgn.
  destruct (SearchFacts.filterPart searchQuery subsonic.Playlist.Name playlists)
    as [up|] eqn:Eup.
  2:{ split; [intros _; left; by apply Hpl | reflexivity]. }
  destruct (SearchFacts.filterPart searchQuery subsonic.Genre.Name genres)
    as [ug|] eqn:Eug.
  2:{ split; [intros _; right; left; by apply Hgn | reflexivity]. }
  apply SearchFacts.filterPart_Ret in Eup as [_ Eup], Eug as [_ Eug].
  assert (Hnpl : ~ (playlists.2 = None /\ ~ no_nil playlists.1)).
  { intros H. apply Hpl in H. discriminate. }
  assert (Hngn : ~ (genres.2 = None /\ ~ no_nil genres.1)).
  { intros H. apply Hgn in H. discriminate. }
  cbn [mbind go_mbind go_bind]. rewrite Eup, Eug.
  destruct primary.2 as [e|].
  { split; [discriminate|]. intros [H | [H | [H _]]]; [tauto | tauto | discriminate]. }
  pose proof (SearchPanics.mergeResults_Panic primary.1
                (SearchFacts.matching searchQuery subsonic.Playlist.Name playlists)
                (SearchFacts.matching searchQuery subsonic.Genre.Name genres)) as Hm.
  destruct (SubsonicProvider.mergeResults _ _ _) as [r|] eqn:Em.
  - cbn [mbind go_mbind go_bind].
    pose proof (SearchPanics.truncate_Panic maxResults r) as Ht.
    apply SearchFacts.mergeResults_Ret in Em as (sr & Hsr & Ha & Hb & Hc & _).
    rewrite Hsr in *.
    destruct (SubsonicProvider.truncate maxResults r) as [r'|].
    + split; [discriminate|].
      intros [H | [H | [_ [H | H]]]]; try tauto.
      apply Ht in H. discriminate.
    + split; [|reflexivity]. intros _. right. right. split; [reflexivity|].
      right. by apply Ht.
  - split; [|reflexivity]. intros _. right. right. split; [reflexivity|].
    destruct primary.1; [left|]; by apply Hm.
Qed.

(** X3.  The result of [SearchAll] does not depend on the order in which
    its three goroutines finish: two schedules give the same list and the
    same error, or both panic. *)
Theorem SearchAll_schedule_independent client searchQuery maxResults sched sched' :
  SubsonicProvider.searchSchedule sched ->
  SubsonicProvider.searchSchedule sched' ->
  SubsonicProvider.SearchAll client searchQuery maxResults sched
  = SubsonicProvider.SearchAll client searchQuery maxResults sched'.
Proof.
  intros Hs Hs'.
  rewrite (SearchFacts.SearchAll_any_schedule _ _ _ _ Hs).
  rewrite (SearchFacts.SearchAll_any_schedule _ _ _ _ Hs'). reflexivity.
Qed.

Module SearchCut.
Import mediaprovider SubsonicProvider SearchFacts SearchTheory.

(** What a call that returns without error returns. *)
Lemma SearchAll_Ret_inv client searchQuery maxResults sched results :
  searchSchedule sched ->
  SearchAll client searchQuery maxResults sched = Ret (results, None) ->
  exists sr,
    (Search3 client searchQuery (search3Params maxResults)) = (Some sr, None)
    /\ 0 <= maxResults
    /\ results
       = take (Z.to_nat maxResults)
           (merged sr
              (matching searchQuery subsonic.Playlist.Name (GetPlaylists client ∅))
              (matching searchQuery subsonic.Genre.Name (GetGenres client))).
Proof.
  intros Hs Hrun. rewrite (SearchAll_any_schedule _ _ _ _ Hs) in Hrun.
  apply go_bind_Ret in Hrun as (up & Hup & Hrun).
  apply go_bind_Ret in Hrun as (ug & Hug & Hrun).
  apply filterPart_Ret in Hup as [_ Hup], Hug as [_ Hug].
  unfold primary in Hrun.
  destruct (Search3 client searchQuery (search3Params maxResults))
    as [res [e|]] eqn:Hprimary; [discriminate|]. cbn [fst snd] in Hrun.
  apply go_bind_Ret in Hrun as (r0 & Hmerge & Hrun).
  apply go_bind_Ret in Hrun as (r1 & Htrunc & Hret). injection Hret as <-.
  rewrite Hup, Hug in Hmerge.
  apply mergeResults_Ret in Hmerge as (sr & -> & _ & _ & _ & ->).
  exists sr. split; [reflexivity|].
  destruct (Z.lt_ge_cases maxResults 0) as [Hneg | Hpos].
  - rewrite (proj2 (SearchPanics.truncate_Panic maxResults _) Hneg) in Htrunc.
    discriminate.
  - split; [exact Hpos|]. rewrite truncate_Ret in Htrunc by exact Hpos. congruence.
Qed.

Lemma length_records {A} (l : list (ptr A)) : (length (records l) <= length l)%nat.
Proof. induction l as [|[a|] l IH]; simpl; lia. Qed.

End SearchCut.

(** X4.  When the backend honours the counts it was asked for (at most
    [maxResults / 3] albums, artists and songs), the cut of [SearchAll]
    never removes an entry of the primary search: the result starts with
    all of them, and the matching playlists and genres only fill the places
    that are left. *)
Theorem SearchAll_primary_kept client searchQuery maxResults sched results sr :
  SubsonicProvider.searchSchedule sched ->
  SubsonicProvider.SearchAll client searchQuery maxResults sched
  = Ret (results, None) ->
  (SubsonicProvider.Search3 client searchQuery
     (SubsonicProvider.search3Params maxResults)).1 = Some sr ->
  Z.of_nat (length (subsonic.SearchResult3.Album sr)) <= Z.quot maxResults 3 ->
  Z.of_nat (length (subsonic.SearchResult3.Artist sr)) <= Z.quot maxResults 3 ->
  Z.of_nat (length (subsonic.SearchResult3.Song sr)) <= Z.quot maxResults 3 ->
  let entries :=
    map SubsonicProvider.albumResult (records (subsonic.SearchResult3.Album sr))
    ++ map SubsonicProvider.artistResult (records (subsonic.SearchResult3.Artist sr))
    ++ map SubsonicProvider.trackResult (records (subsonic.SearchResult3.Song sr)) in
  results
  = entries
    ++ take (Z.to_nat maxResults - length entries)
         (map SubsonicProvider.playlistResult
            (SearchFacts.matching searchQuery subsonic.Playlist.Name
               (SubsonicProvider.GetPlaylists client ∅))
          ++ map SubsonicProvider.genreResult
               (SearchFacts.matching searchQuery subsonic.Genre.Name
                  (SubsonicProvider.GetGenres client))).
Proof.
  intros Hs Hrun Hsr Ha Hb Hc entries.
  apply (SearchCut.SearchAll_Ret_inv _ _ _ _ _ Hs) in Hrun as (sr' & Hp & Hm & ->).
  rewrite Hp in Hsr. injection Hsr as ->.
  pose proof (Z.mul_quot_le maxResults 3 Hm ltac:(lia)) as Hq.
  pose proof (SearchCut.length_records (subsonic.SearchResult3.Album sr)).
  pose proof (SearchCut.length_records (subsonic.SearchResult3.Artist sr)).
  pose proof (SearchCut.length_records (subsonic.SearchResult3.Song sr)).
  assert (Hlen : (length entries <= Z.to_nat maxResults)%nat).
  { subst entries. rewrite !length_app, !length_map. lia. }
  assert (Hsplit :
    SearchFacts.merged sr
      (SearchFacts.matching searchQuery subsonic.Playlist.Name
         (SubsonicProvider.GetPlaylists client ∅))
      (SearchFacts.matching searchQuery subsonic.Genre.Name
         (SubsonicProvider.GetGenres client))
    = entries
      ++ (map SubsonicProvider.playlistResult
            (SearchFacts.matching searchQuery subsonic.Playlist.Name
               (SubsonicProvider.GetPlaylists client ∅))
          ++ map SubsonicProvider.genreResult
               (SearchFacts.matching searchQuery subsonic.Genre.Name
                  (SubsonicProvider.GetGenres client)))).
  { subst entries. unfold SearchFacts.merged. by rewrite <- !app_assoc. }
  rewrite Hsplit.
  rewrite take_app, (take_ge entries) by exact Hlen. reflexivity.
Qed.

Module QueryFacts.
Import mediaprovider SubsonicProvider SearchFacts SearchTheory.

(** A text made of white space only (the empty text included). *)
Fixpoint blank (s : string) : bool :=
  match s with
  | EmptyString => true
  | String c s' => strings.isSpace c && blank s'
  end.

Lemma fields_from_blank s : blank s = true -> strings.fields_from s = ("", []).
Proof.
  induction s as [|c s IH]; [reflexivity|]. simpl.
  intros H. apply andb_true_iff in H as [Hc Hs]. rewrite (IH Hs), Hc. reflexivity.
Qed.

Lemma Fields_blank s : strings.Fields s = [] <-> blank s = true.
Proof.
  split.
  - induction s as [|c s IH]; [reflexivity|]. unfold strings.Fields in *. simpl.
    destruct (strings.fields_from s) as [w ws]. destruct (strings.isSpace c); simpl.
    + exact IH.
    + discriminate.
  - intros H. unfold strings.Fields. by rewrite fields_from_blank.
Qed.

Lemma blank_lower s : blank (strings.ToLower s) = blank s.
Proof.
  induction s as [|c s IH]; [reflexivity|]. simpl.
  by rewrite StringFacts.isSpace_lower, IH.
Qed.

Lemma push_field_app w ws l :
  strings.push_field w (ws ++ l) = strings.push_field w ws ++ l.
Proof. by destruct w. Qed.

Lemma fields_from_space a b :
  strings.fields_from (a +:+ " " +:+ b)
  = ((strings.fields_from a).1, (strings.fields_from a).2 ++ strings.Fields b).
Proof.
  induction a as [|c a IH].
  - change ("" +:+ " " +:+ b) with (String " " b). unfold strings.Fields. simpl.
    by destruct (strings.fields_from b).
  - rewrite StringFacts.app_String. simpl. rewrite IH.
    destruct (strings.fields_from a) as [w ws]. simpl.
    destruct (strings.isSpace c); [|reflexivity]. by rewrite push_field_app.
Qed.

(** The fields of two texts put side by side with a space between. *)
Lemma Fields_space a b :
  strings.Fields (a +:+ " " +:+ b) = strings.Fields a ++ strings.Fields b.
Proof.
  unfold strings.Fields at 1 2. rewrite fields_from_space.
  destruct (strings.fields_from a) as [w ws]. simpl. apply push_field_app.
Qed.

Lemma queryLowerWords_space a b :
  queryLowerWords (a +:+ " " +:+ b) = queryLowerWords a ++ queryLowerWords b.
Proof.
  unfold queryLowerWords. rewrite !StringFacts.ToLower_app. apply Fields_space.
Qed.

Lemma allTermsMatch_app name ts ts' :
  allTermsMatch name (ts ++ ts') = allTermsMatch name ts && allTermsMatch name ts'.
Proof.
  induction ts as [|t ts IH]; [reflexivity|]. simpl.
  destruct (strings.Contains name t); simpl; [exact IH | reflexivity].
Qed.

Lemma passing_app {A} (Name : A -> string) ws ws' xs :
  passing Name (ws ++ ws') xs = passing Name ws' (passing Name ws xs).
Proof.
  unfold passing. induction xs as [|x xs IH]; [reflexivity|]. simpl.
  rewrite allTermsMatch_app.
  destruct (allTermsMatch _ ws); simpl; [|exact IH].
  destruct (allTermsMatch _ ws'); by rewrite IH.
Qed.

Lemma passing_no_words {A} (Name : A -> string) xs : passing Name [] xs = xs.
Proof.
  unfold passing. cbn [allTermsMatch].
  induction xs as [|x xs IH]; [reflexivity|]. simpl. by rewrite IH.
Qed.

End QueryFacts.

(** X5.  A query without a term (empty, or white space only) filters
    nothing: the playlist and the genre sub-query of [SearchAll] then keep
    every candidate of the backend list, in order. *)
Theorem blank_query_keeps_all client searchQuery maxResults :
  QueryFacts.blank searchQuery = true ->
  let body := SubsonicProvider.searchBody client searchQuery maxResults in
  (forall candidates v,
      SubsonicProvider.GetPlaylists client ∅ = (candidates, None) ->
      no_nil candidates ->
      exists v', body SubsonicProvider.goPlaylists v = Ret v'
        /\ SubsonicProvider.v_playlists v' = candidates)
  /\ (forall candidates v,
      SubsonicProvider.GetGenres client = (candidates, None) ->
      no_nil candidates ->
      exists v', body SubsonicProvider.goGenres v = Ret v'
        /\ SubsonicProvider.v_genres v' = candidates).
Proof.
  intros Hb body.
  assert (Hw : SubsonicProvider.queryLowerWords searchQuery = []).
  { unfold SubsonicProvider.queryLowerWords.
    apply QueryFacts.Fields_blank. by rewrite QueryFacts.blank_lower. }
  subst body. unfold SubsonicProvider.searchBody. rewrite Hw.
  split; intros candidates v -> Hl; apply no_nil_records in Hl;
    set (xs := records candidates) in *; clearbody xs; subst candidates;
    rewrite SearchFacts.filter_Some, QueryFacts.passing_no_words;
    eexists; split; reflexivity.
Qed.

(** X6.  For queries and names that are [isASCII], filtering by a query
    made of two parts separated by a space is filtering by the first part
    and then by the second: adding words to a query can only narrow the
    playlists and genres that [SearchAll] keeps.  Both sides panic on a
    nil candidate. *)
Theorem filter_by_two_parts {A} (Name : A -> string) (q1 q2 : string)
    (candidates : list (ptr A)) :
  strings.isASCII q1 = true ->
  strings.isASCII q2 = true ->
  (forall p, Some p ∈ candidates -> strings.isASCII (Name p) = true) ->
  sharedutil.FilterSlice candidates
    (SubsonicProvider.nameMatches Name
       (SubsonicProvider.queryLowerWords (q1 +:+ " " +:+ q2)))
  = (kept ← sharedutil.FilterSlice candidates
              (SubsonicProvider.nameMatches Name (SubsonicProvider.queryLowerWords q1));
     sharedutil.FilterSlice kept
       (SubsonicProvider.nameMatches Name (SubsonicProvider.queryLowerWords q2))).
Proof.
  intros Hq1 Hq2 Hnames. rewrite QueryFacts.queryLowerWords_space.
  destruct (SearchPanics.no_nil_dec candidates) as [Hl | Hl].
  - apply no_nil_records in Hl.
    set (xs := records candidates) in *. clearbody xs. subst candidates.
    rewrite !SearchFacts.filter_Some. cbn [mbind go_mbind go_bind].
    rewrite SearchFacts.filter_Some. by rewrite QueryFacts.passing_app.
  - destruct (sharedutil.FilterSlice candidates
                (SubsonicProvider.nameMatches Name
                   (SubsonicProvider.queryLowerWords q1 ++ _))) eqn:E1.
    { apply SearchFacts.filter_Ret in E1 as [H _]. contradiction. }
    destruct (sharedutil.FilterSlice candidates
                (SubsonicProvider.nameMatches Name (SubsonicProvider.queryLowerWords q1)))
      eqn:E2; [|reflexivity].
    apply SearchFacts.filter_Ret in E2 as [H _]. contradiction.
Qed.

Module SearchExample2.
Import SubsonicProvider.

(** Answers the search whatever the counts asked for. *)
Definition anyCount : Client := {|
  Search3 := fun _ _ => (Some SearchExample.found, None);
  GetPlaylists := GetPlaylists SearchExample.client;
  GetGenres := GetGenres SearchExample.client
|}.

Definition inOrder : list searchGoroutine := [goSearch3; goPlaylists; goGenres].

Lemma inOrder_ok : searchSchedule inOrder.
Proof. unfold searchSchedule, inOrder. reflexivity. Qed.

End SearchExample2.

Lemma mergeResults_by_type_witness :
  SearchMore.ofType mediaprovider.ContentTypePlaylist SearchExample.expected
  = [SubsonicProvider.playlistResult SearchExample.mix]
  /\ length SearchExample.expected = 6%nat.
Proof.
  destruct (mergeResults_by_type (Some SearchExample.found)
              [Some SearchExample.mix] [Some SearchExample.barfoo]
              SearchExample.expected eq_refl)
    as (sr & _ & _ & _ & _ & Hpl & _ & Hlen).
  split; [exact Hpl | reflexivity].
Defined.

Lemma SearchAll_panics_witness :
  SubsonicProvider.SearchAll SearchExample2.anyCount "foo" (-1) SearchExample.sched
  = Panic.
Proof.
  apply (SearchAll_panics SearchExample2.anyCount "foo" (-1) SearchExample.sched
           SearchExample.sched_ok).
  right. right. split; [reflexivity|]. right. reflexivity.
Defined.

Lemma SearchAll_schedule_independent_witness :
  SubsonicProvider.SearchAll SearchExample.client "foo  bar" 30 SearchExample.sched
  = SubsonicProvider.SearchAll SearchExample.client "foo  bar" 30
      SearchExample2.inOrder.
Proof.
  apply SearchAll_schedule_independent.
  - exact SearchExample.sched_ok.
  - exact SearchExample2.inOrder_ok.
Defined.

Lemma SearchAll_primary_kept_witness :
  exists rest,
    SearchExample.expected
    = map SubsonicProvider.albumResult
        (records (subsonic.SearchResult3.Album SearchExample.found))
      ++ map SubsonicProvider.artistResult
           (records (subsonic.SearchResult3.Artist SearchExample.found))
      ++ map SubsonicProvider.trackResult
           (records (subsonic.SearchResult3.Song SearchExample.found))
      ++ rest.
Proof.
  eexists.
  rewrite (SearchAll_primary_kept SearchExample.client "foo  bar" 30
             SearchExample.sched SearchExample.expected SearchExample.found
             SearchExample.sched_ok SearchExample.SearchAll_example) at 1.
  - rewrite <- !app_assoc. reflexivity.
  - vm_compute. reflexivity.
  - vm_compute. discriminate.
  - vm_compute. discriminate.
  - vm_compute. discriminate.
Defined.

Lemma filter_by_two_parts_witness :
  sharedutil.FilterSlice [Some SearchExample.mix; Some SearchExample.other]
    (SubsonicProvider.nameMatches subsonic.Playlist.Name
       (SubsonicProvider.queryLowerWords ("Foo" +:+ " " +:+ "baz")))
  = Ret [Some SearchExample.mix].
Proof.
  etransitivity; [|reflexivity].
  apply (filter_by_two_parts subsonic.Playlist.Name "Foo" "baz"
           [Some SearchExample.mix; Some SearchExample.other] eq_refl eq_refl).
  intros p Hp. apply elem_of_cons in Hp as [[= ->] | Hp]; [reflexivity|].
  apply elem_of_cons in Hp as [[= ->] | Hp]; [reflexivity|].
  by apply elem_of_nil in Hp.
Defined.

Lemma blank_query_keeps_all_witness :
  exists v',
    SubsonicProvider.searchBody SearchExample.client "  " 30
      SubsonicProvider.goPlaylists
      (SubsonicProvider.Build_searchVars None None [] []) = Ret v'
    /\ SubsonicProvider.v_playlists v'
       = [Some SearchExample.mix; Some SearchExample.other].
Proof.
  destruct (blank_query_keeps_all SearchExample.client "  " 30 eq_refl) as [Hpl _].
  apply (Hpl [Some SearchExample.mix; Some SearchExample.other]
           (SubsonicProvider.Build_searchVars None None [] []) eq_refl).
  repeat constructor; eexists; reflexivity.
Defined.

(* ===================================================================== *)
(** * Further properties of [jellyfinmediaprovider.go] *)
(* ===================================================================== *)

Module FavoritesOrder.
Import mediaprovider JellyfinProvider.

Section parts.
Variable nil_when_empty : bool -> bool.
Variable client : Client.

(** What a goroutine of [GetFavorites] stores in its field, if anything. *)
Definition part {A B} (f : ptr A -> go (ptr B))
    (answer : slice (ptr A) * option Err) : go (option (slice (ptr B))) :=
  if bool_decide (answer.2 = None) && (0 <? len answer.1)%Z
  then r ← sharedutil.MapSlice nil_when_empty answer.1 f; Ret (Some r)
  else Ret None.

Lemma favBody_albums_part fav :
  favBody nil_when_empty client favAlbums fav
  = u ← part toAlbum (GetAlbums client favOpts);
    Ret (Favorites.mk (default (Favorites.Albums fav) u)
           (Favorites.Artists fav) (Favorites.Tracks fav)).
Proof.
  unfold favBody, part. destruct (GetAlbums client favOpts) as [al e]. simpl.
  destruct (bool_decide (e = None) && (0 <? len al)%Z).
  - by destruct (sharedutil.MapSlice _ _ _).
  - by destruct fav.
Qed.

Lemma favBody_artists_part fav :
  favBody nil_when_empty client favArtists fav
  = u ← part toArtist (GetAlbumArtists client favOpts);
    Ret (Favorites.mk (Favorites.Albums fav)
           (default (Favorites.Artists fav) u) (Favorites.Tracks fav)).
Proof.
  unfold favBody, part. destruct (GetAlbumArtists client favOpts) as [al e]. simpl.
  destruct (bool_decide (e = None) && (0 <? len al)%Z).
  - by destruct (sharedutil.MapSlice _ _ _).
  - by destruct fav.
Qed.

Lemma favBody_tracks_part fav :
  favBody nil_when_empty client favTracks fav
  = u ← part toTrack (GetSongs client favOpts);
    Ret (Favorites.mk (Favorites.Albums fav) (Favorites.Artists fav)
           (default (Favorites.Tracks fav) u)).
Proof.
  unfold favBody, part. destruct (GetSongs client favOpts) as [al e]. simpl.
  destruct (bool_decide (e = None) && (0 <? len al)%Z).
  - by destruct (sharedutil.MapSlice _ _ _).
  - by destruct fav.
Qed.

(** The aggregate in terms of the three answers alone. *)
Lemma GetFavorites_canonical sched :
  favSchedule sched ->
  GetFavorites nil_when_empty client sched
  = ua ← part toAlbum (GetAlbums client favOpts);
    ub ← part toArtist (GetAlbumArtists client favOpts);
    uc ← part toTrack (GetSongs client favOpts);
    Ret (Favorites.mk (default None ua) (default None ub) (default None uc), None).
Proof.
  intros Hs. unfold GetFavorites.
  destruct (part toAlbum (GetAlbums client favOpts)) as [ua|] eqn:Ea;
    destruct (part toArtist (GetAlbumArtists client favOpts)) as [ub|] eqn:Eb;
    destruct (part toTrack (GetSongs client favOpts)) as [uc|] eqn:Ec;
    destruct (favSchedule_cases _ Hs) as [-> | [-> | [-> | [-> | [-> | ->]]]]];
    repeat (cbn [run_goroutines];
            first [rewrite favBody_albums_part | rewrite favBody_artists_part
                  | rewrite favBody_tracks_part];
            rewrite ?Ea, ?Eb, ?Ec;
            cbn [mbind go_mbind go_bind]);
    reflexivity.
Qed.

End parts.
End FavoritesOrder.

(** X7.  The result of [GetFavorites] does not depend on the order in which
    its three goroutines finish: two schedules give the same aggregate, or
    both panic. *)
Theorem GetFavorites_schedule_independent nil_when_empty client sched sched' :
  JellyfinProvider.favSchedule sched ->
  JellyfinProvider.favSchedule sched' ->
  JellyfinProvider.GetFavorites nil_when_empty client sched
  = JellyfinProvider.GetFavorites nil_when_empty client sched'.
Proof.
  intros Hs Hs'.
  rewrite (FavoritesOrder.GetFavorites_canonical _ _ _ Hs).
  rewrite (FavoritesOrder.GetFavorites_canonical _ _ _ Hs'). reflexivity.
Qed.

Lemma GetFavorites_schedule_independent_witness :
  JellyfinProvider.GetFavorites (fun b => b) GetFavoritesExample.client
    [JellyfinProvider.favTracks; JellyfinProvider.favAlbums; JellyfinProvider.favArtists]
  = JellyfinProvider.GetFavorites (fun b => b) GetFavoritesExample.client
      [JellyfinProvider.favAlbums; JellyfinProvider.favArtists; JellyfinProvider.favTracks].
Proof.
  apply GetFavorites_schedule_independent.
  - unfold JellyfinProvider.favSchedule.
    apply (Permutation_cons_app [_; _] [] _). reflexivity.
  - unfold JellyfinProvider.favSchedule. reflexivity.
Defined.

Module FavoritesPanics.
Import mediaprovider JellyfinProvider.

(** A map with an adapter that panics on nil and on nothing else. *)
Lemma go_map_Panic {A B} (f : ptr A -> go (ptr B)) (l : list (ptr A)) :
  f None = Panic ->
  (forall a, exists b, f (Some a) = Ret b) ->
  go_map f l = Panic <-> ~ no_nil l.
Proof.
  intros Hn Hs. induction l as [|p l IH].
  - split; [discriminate|]. intros H. destruct H. constructor.
  - destruct p as [a|]; simpl.
    + destruct (Hs a) as [b ->]. simpl.
      destruct (go_map f l) as [bs|]; simpl.
      * split; [discriminate|]. intros H. exfalso. apply H.
        constructor; [eauto|]. destruct (SearchPanics.no_nil_dec l) as [Hl|Hl];
          [exact Hl|]. apply IH in Hl. discriminate.
      * split; [|reflexivity]. intros _ H. apply Forall_cons in H as [_ H].
        by apply (proj1 IH).
    + rewrite Hn. split; [|reflexivity]. intros _ H.
      apply Forall_cons in H as [[a Ha] _]. discriminate.
Qed.

Lemma go_map_total {A B} (f : ptr A -> go (ptr B)) (l : list (ptr A)) :
  (forall p, exists b, f p = Ret b) -> exists r, go_map f l = Ret r.
Proof.
  intros Hf. induction l as [|p l [r IH]]; [eexists; reflexivity|]. simpl.
  destruct (Hf p) as [b ->]. simpl. rewrite IH. eexists. reflexivity.
Qed.

Section parts.
Variable nil_when_empty : bool -> bool.

Lemma part_Panic {A B} (f : ptr A -> go (ptr B)) answer :
  f None = Panic ->
  (forall a, exists b, f (Some a) = Ret b) ->
  FavoritesOrder.part nil_when_empty f answer = Panic
  <-> answer.2 = None /\ ~ no_nil (elems answer.1).
Proof.
  intros Hn Hs. unfold FavoritesOrder.part, sharedutil.MapSlice.
  destruct answer as [ts [e|]]; simpl.
  - split; [discriminate | intros [H _]; discriminate].
  - pose proof (go_map_Panic f (elems ts) Hn Hs) as Hp.
    destruct (Z.ltb_spec 0 (len ts)) as [Hlen | Hlen].
    + destruct (go_map f (elems ts)) as [r|]; simpl.
      * split; [discriminate|]. intros [_ H]. apply Hp in H. discriminate.
      * split; [|reflexivity]. intros _. split; [reflexivity | by apply Hp].
    + split; [discriminate|]. intros [_ H]. exfalso. apply H.
      unfold len in Hlen. destruct (elems ts); [constructor | simpl in Hlen; lia].
Qed.

Lemma part_tracks answer :
  exists u, FavoritesOrder.part nil_when_empty toTrack answer = Ret u.
Proof.
  unfold FavoritesOrder.part, sharedutil.MapSlice.
  destruct (bool_decide (answer.2 = None) && (0 <? len answer.1)%Z);
    [|eexists; reflexivity].
  destruct (go_map_total toTrack (elems answer.1)) as [r ->].
  - intros [ch|]; [|eexists; reflexivity].
    destruct (AdapterFacts.toTrack_Some ch) as (t & -> & _). eauto.
  - eexists. reflexivity.
Qed.

End parts.
End FavoritesPanics.

(** X8.  When [GetFavorites] panics.  Whatever the order in which its
    sub-queries finish, [GetFavorites] panics exactly when a successful
    album answer or a successful artist answer holds a nil record.  A nil
    record in the song answer never makes it panic. *)
Theorem GetFavorites_panics nil_when_empty client sched :
  let albums := JellyfinProvider.GetAlbums client JellyfinProvider.favOpts in
  let artists := JellyfinProvider.GetAlbumArtists client JellyfinProvider.favOpts in
  JellyfinProvider.favSchedule sched ->
  JellyfinProvider.GetFavorites nil_when_empty client sched = Panic
  <-> (albums.2 = None /\ ~ no_nil (elems albums.1))
      \/ (artists.2 = None /\ ~ no_nil (elems artists.1)).
Proof.
  intros albums artists Hs.
  rewrite (FavoritesOrder.GetFavorites_canonical _ _ _ Hs). fold albums artists.
  pose proof (FavoritesPanics.part_Panic nil_when_empty JellyfinProvider.toAlbum albums
                eq_refl) as Ha.
  pose proof (FavoritesPanics.part_Panic nil_when_empty JellyfinProvider.toArtist artists
                eq_refl) as Hb.
  rewrite <- Ha, <- Hb.
  2:{ intros a. destruct (AdapterFacts.toArtist_Some a) as (ar & ->). eauto. }
  2:{ intros a. destruct (AdapterFacts.toAlbum_Some a) as (al & -> & _). eauto. }
  destruct (FavoritesPanics.part_tracks nil_when_empty
              (JellyfinProvider.GetSongs client JellyfinProvider.favOpts)) as [uc ->].
  destruct (FavoritesOrder.part nil_when_empty JellyfinProvider.toAlbum albums) as [ua|];
    destruct (FavoritesOrder.part nil_when_empty JellyfinProvider.toArtist artists)
      as [ub|]; cbn [mbind go_mbind go_bind];
    (split;
     [ first [ discriminate
             | intros _; first [left; reflexivity | right; reflexivity] ]
     | first [ intros [H | H]; discriminate | reflexivity ] ]).
Qed.

Lemma GetFavorites_panics_witness :
  JellyfinProvider.GetFavorites (fun b => b) GetFavoritesExample.nilAlbum
    [JellyfinProvider.favTracks; JellyfinProvider.favAlbums; JellyfinProvider.favArtists]
  = Panic.
Proof.
  apply GetFavorites_panics.
  - unfold JellyfinProvider.favSchedule.
    apply (Permutation_cons_app [_; _] [] _). reflexivity.
  - left. split; [reflexivity|]. simpl. intros H.
    apply Forall_cons in H as [_ H]. apply Forall_cons in H as [[a Ha] _].
    discriminate.
Defined.

Module SetFavoriteErrors.
Import mediaprovider JellyfinProvider SetFavoriteFacts.

Lemma firstError_None bs : firstError bs None <-> forall e, ~ answered (concat bs) e.
Proof.
  induction bs as [|b bs IH]; simpl.
  - split; [|reflexivity]. intros _ e (c & Hc & _). by apply elem_of_nil in Hc.
  - split.
    + intros [(e & He & _) | [Hb Hbs]]; [discriminate|]. intros e (c & Hc & He).
      apply elem_of_app in Hc as [Hc | Hc].
      * apply (Hb e). exists c. auto.
      * apply (proj1 IH Hbs e). exists c. auto.
    + intros H. right. split.
      * intros e (c & Hc & He). apply (H e). exists c.
        split; [apply elem_of_app; auto | exact He].
      * apply IH. intros e (c & Hc & He). apply (H e). exists c.
        split; [apply elem_of_app; auto | exact He].
Qed.

Lemma firstError_Some bs e : firstError bs (Some e) -> answered (concat bs) e.
Proof.
  induction bs as [|b bs IH]; simpl; [discriminate|].
  intros [(e' & [= <-] & c & Hc & He) | [_ H]].
  - exists c. split; [apply elem_of_app; auto | exact He].
  - destruct (IH H) as (c & Hc & He). exists c.
    split; [apply elem_of_app; auto | exact He].
Qed.

End SetFavoriteErrors.

(** X9.  [SetFavorite] does not hide a failure and does not make one up.
    For every backend and scheduler it returns nil exactly when every call
    it made returned nil, and an error it returns is the error of one of
    its calls.  With no id at all it makes no call and returns nil. *)
Theorem SetFavorite_error respond sched params favorite calls :
  let allIDs :=
    mediaprovider.RatingFavoriteParameters.AlbumIDs params
    ++ mediaprovider.RatingFavoriteParameters.ArtistIDs params
    ++ mediaprovider.RatingFavoriteParameters.TrackIDs params in
  exists err made,
    JellyfinProvider.SetFavorite respond sched params favorite calls
    = Ret (err, calls ++ made)
    /\ (err = None <-> forall c, c ∈ made -> JellyfinProvider.call_err c = None)
    /\ (forall e, err = Some e ->
          exists c, c ∈ made /\ JellyfinProvider.call_err c = Some e)
    /\ (allIDs = [] -> made = [] /\ err = None).
Proof.
  intros allIDs. unfold JellyfinProvider.SetFavorite. fold allIDs.
  destruct (SetFavoriteFacts.batchLoop_spec respond allIDs favorite sched
              (JellyfinProvider.ceilDiv (length allIDs) JellyfinProvider.batchSize)
              0%nat None calls) as (err & bs & Hrun & Hlen & Hok & Herr).
  apply SetFavoriteFacts.loopErr_first in Herr.
  exists err, (concat bs). split; [exact Hrun|]. split; [|split].
  - split.
    + intros -> c Hc.
      pose proof (proj1 (SetFavoriteErrors.firstError_None bs) Herr) as Hno.
      destruct (JellyfinProvider.call_err c) as [e|] eqn:E; [|reflexivity].
      destruct (Hno e). exists c. auto.
    + intros H. destruct err as [e|]; [|reflexivity].
      apply SetFavoriteErrors.firstError_Some in Herr as (c & Hc & He).
      rewrite (H c Hc) in He. discriminate.
  - intros e ->. exact (SetFavoriteErrors.firstError_Some _ _ Herr).
  - intros Hnil. rewrite Hnil in Hlen. destruct bs; [|discriminate Hlen].
    split; [reflexivity | exact Herr].
Qed.

Lemma SetFavorite_error_witness :
  (exists c,
      c ∈ map SetFavoriteExample.call ["a1"; "a2"; "r1"; "t1"; "t2"; "t3"; "t4"]
      /\ JellyfinProvider.call_err c = Some "no a2")
  /\ JellyfinProvider.SetFavorite SetFavoriteExample.respond SetFavoriteExample.inOrder
       (mediaprovider.RatingFavoriteParameters.mk [] [] []) true []
     = Ret (None, []).
Proof.
  split.
  - destruct (SetFavorite_error SetFavoriteExample.respond SetFavoriteExample.inOrder
                SetFavoriteExample.params true [])
      as (err & made & Hrun & _ & Hsome & _).
    rewrite SetFavoriteExample.SetFavorite_inOrder in Hrun.
    injection Hrun as <- <-. apply (Hsome _ eq_refl).
  - destruct (SetFavorite_error SetFavoriteExample.respond SetFavoriteExample.inOrder
                (mediaprovider.RatingFavoriteParameters.mk [] [] []) true [])
      as (err & made & Hrun & _ & _ & Hempty).
    destruct (Hempty eq_refl) as [-> ->]. exact Hrun.
Defined.

(** ** The genre cache over any number of calls *)

Module GenresReach.
Import mediaprovider JellyfinProvider.

(** The provider states that calls of [GetGenres] lead to, from a new
    provider, at whatever times the calls are made. *)
Inductive reachable (nil_when_empty : bool -> bool)
    (backend : nat -> Z * (slice jellyfin.NameID.t * option Err))
  : jellyfinMediaProvider.t -> Prop :=
| reach_new : reachable nil_when_empty backend newJellyfinMediaProvider
| reach_call j w r j' w' :
    reachable nil_when_empty backend j ->
    GetGenres nil_when_empty backend j w = Ret (r, j', w') ->
    reachable nil_when_empty backend j'.

(** A genre as [GetGenres] makes them: not nil, both counts [-1]. *)
Definition sentinel (p : ptr Genre.t) : Prop :=
  exists name, p = Some (Genre.mk name (-1) (-1)).

Section cases.
Variable nil_when_empty : bool -> bool.
Variable backend : nat -> Z * (slice jellyfin.NameID.t * option Err).

(** The three ways in which a call of [GetGenres] ends. *)
Lemma GetGenres_cases j w l e j' w' :
  GetGenres nil_when_empty backend j w = Ret ((l, e), j', w') ->
  (l = jellyfinMediaProvider.genresCached j /\ e = None /\ j' = j /\ w' = w)
  \/ (l = None /\ e <> None /\ j' = j /\ fetches w' = S (fetches w))
  \/ (e = None /\ j' = jellyfinMediaProvider.mk l (now w')
      /\ fetches w' = S (fetches w)
      /\ Forall sentinel (elems l)).
Proof.
  unfold GetGenres.
  destruct (negb _ && _).
  - intros [= <- <- <- <-]. left. auto.
  - unfold client_GetGenres. destruct (backend (fetches w)) as [d [g [err|]]].
    + intros [= <- <- <- <-]. right. left. simpl. auto.
    + intros H. apply go_bind_Ret in H as (c & Hc & [= <- <- <- <-]).
      right. right. simpl. repeat split.
      destruct (GenresFacts.MapSlice_toGenre nil_when_empty g) as (c' & Hc' & Hel).
      rewrite Hc in Hc'. injection Hc' as <-. rewrite Hel.
      apply Forall_forall. intros p Hp.
      apply list_elem_of_fmap in Hp as (n & -> & _). eexists. reflexivity.
Qed.

Lemma reachable_sentinel j :
  reachable nil_when_empty backend j ->
  Forall sentinel (elems (jellyfinMediaProvider.genresCached j)).
Proof.
  induction 1 as [|j w [l e] j' w' _ IH Hcall]; [constructor|].
  apply GetGenres_cases in Hcall
    as [(_ & _ & -> & _) | [(_ & _ & -> & _) | (_ & -> & _ & Hs)]]; auto.
Qed.

End cases.
End GenresReach.

(** X10.  Over any number of calls of [GetGenres] on a provider, made at
    any times and with any backend: a call that returns no error returns
    only genres that are not nil and whose [AlbumCount] and [TrackCount]
    are both [-1]; a call that returns an error returns the nil list; and
    each call asks the backend at most once. *)
Theorem GetGenres_always_sentinel nil_when_empty backend j w l e j' w' :
  GenresReach.reachable nil_when_empty backend j ->
  JellyfinProvider.GetGenres nil_when_empty backend j w = Ret ((l, e), j', w') ->
  (e = None -> Forall GenresReach.sentinel (elems l))
  /\ (e <> None -> l = None)
  /\ (JellyfinProvider.fetches w <= JellyfinProvider.fetches w'
      <= S (JellyfinProvider.fetches w))%nat.
Proof.
  intros Hj Hcall. pose proof (GenresReach.reachable_sentinel _ _ _ Hj) as Hinv.
  apply GenresReach.GetGenres_cases in Hcall
    as [(-> & -> & -> & ->) | [(-> & He & -> & Hf) | (-> & -> & Hf & Hs)]].
  - split; [auto|]. split; [congruence | lia].
  - split; [congruence|]. split; [auto | lia].
  - split; [auto|]. split; [congruence | lia].
Qed.

Lemma GetGenres_always_sentinel_witness :
  Forall GenresReach.sentinel
    [Some (mediaprovider.Genre.mk "Rock" (-1) (-1));
     Some (mediaprovider.Genre.mk "Jazz" (-1) (-1))].
Proof.
  pose (j1 := JellyfinProvider.jellyfinMediaProvider.mk
                (Some [Some (mediaprovider.Genre.mk "Rock" (-1) (-1));
                       Some (mediaprovider.Genre.mk "Jazz" (-1) (-1))]) 1001).
  assert (Hj1 : GenresReach.reachable (fun b => b) GenresExample.backend j1).
  { apply (GenresReach.reach_call _ _ JellyfinProvider.newJellyfinMediaProvider
             (GenresExample.world 1000 0)
             (JellyfinProvider.jellyfinMediaProvider.genresCached j1, None)
             j1 (GenresExample.world 1001 1)).
    - constructor.
    - reflexivity. }
  destruct (GetGenres_always_sentinel (fun b => b) GenresExample.backend j1
              (GenresExample.world 1030 1)
              (JellyfinProvider.jellyfinMediaProvider.genresCached j1) None
              j1 (GenresExample.world 1030 1) Hj1 eq_refl) as [Hs _].
  exact (Hs eq_refl).
Defined.

(** ** The adapters, field by field *)

Module AdapterBounds.

(** Integer division of a non-negative number rounds down. *)
Lemma quot_floor a b :
  0 <= a -> 0 < b -> 0 <= Z.quot a b /\ b * Z.quot a b <= a < b * (Z.quot a b + 1).
Proof.
  intros Ha Hb. rewrite Z.quot_div_nonneg by lia.
  pose proof (Z.div_pos a b Ha Hb). pose proof (Z.mul_div_le a b Hb).
  pose proof (Z.mul_succ_div_gt a b Hb). lia.
Qed.

End AdapterBounds.

(** X11.  Durations are whole units rounded down.  For a record whose
    [RunTimeTicks] is not negative, the [Duration] [d] that [toTrack] and
    [toAlbum] give satisfies [10^7 d <= RunTimeTicks < 10^7 (d + 1)], and
    the one that [toPlaylist] gives satisfies
    [10^6 d <= RunTimeTicks < 10^6 (d + 1)]; it is never negative. *)
Theorem durations_round_down :
  (forall ch t,
      JellyfinProvider.toTrack (Some ch) = Ret (Some t) ->
      0 <= jellyfin.Song.RunTimeTicks ch ->
      let d := mediaprovider.Track.Duration t in
      0 <= d /\ 10000000 * d <= jellyfin.Song.RunTimeTicks ch < 10000000 * (d + 1))
  /\ (forall a al,
      JellyfinProvider.toAlbum (Some a) = Ret (Some al) ->
      0 <= jellyfin.Album.RunTimeTicks a ->
      let d := mediaprovider.Album.Duration al in
      0 <= d /\ 10000000 * d <= jellyfin.Album.RunTimeTicks a < 10000000 * (d + 1))
  /\ (forall user p pl,
      JellyfinProvider.toPlaylist user (Some p) = Ret (Some pl) ->
      0 <= jellyfin.Playlist.RunTimeTicks p ->
      let d := mediaprovider.Playlist.Duration pl in
      0 <= d /\ 1000000 * d <= jellyfin.Playlist.RunTimeTicks p < 1000000 * (d + 1)).
Proof.
  split; [|split].
  - intros ch t Ht Hpos d.
    destruct (AdapterFacts.toTrack_Some ch) as (t' & Ht' & _ & _ & Hd & _).
    rewrite Ht in Ht'. injection Ht' as <-. subst d. rewrite Hd.
    apply AdapterBounds.quot_floor; lia.
  - intros a al Ht Hpos d.
    destruct (AdapterFacts.toAlbum_Some a) as (t' & Ht' & _ & _ & Hd).
    rewrite Ht in Ht'. injection Ht' as <-. subst d. rewrite Hd.
    apply AdapterBounds.quot_floor; lia.
  - intros user p pl Ht Hpos d.
    destruct (AdapterFacts.toPlaylist_Some user p) as (t' & Ht' & Hd).
    rewrite Ht in Ht'. injection Ht' as <-. subst d. rewrite Hd.
    apply AdapterBounds.quot_floor; lia.
Qed.

Lemma durations_round_down_witness :
  0 <= 123 /\ 10000000 * 123 <= 1234567890 < 10000000 * (123 + 1).
Proof.
  destruct durations_round_down as [Htrack _].
  destruct (AdapterFacts.toTrack_Some GetFavoritesExample.song1) as (t & Ht & _ & _ & Hd & _).
  pose proof (Htrack GetFavoritesExample.song1 t Ht ltac:(simpl; lia)) as H.
  simpl in H. rewrite Hd in H. exact H.
Defined.

(** X12.  What [toTrack] falls back on, and how its tracks point to the
    albums of [toAlbum].  The cover art of a track is the track's own id
    when the song has a primary image tag, and the id of its album when it
    has none; its parent is always the album.  So for the album record that
    the song names, the track's [AlbumID] and [ParentID] are the [ID] of
    the adapted album, and a track without image of its own has the
    [CoverArtID] of that album.  File path, size and bit rate come from the
    first media source only, the bit rate divided by 1000; a song without
    media source gets the empty path and zero for both. *)
Theorem toTrack_fallbacks ch t :
  JellyfinProvider.toTrack (Some ch) = Ret (Some t) ->
  (jellyfin.Song.ImageTags_Primary ch = "" ->
     mediaprovider.Track.CoverArtID t = jellyfin.Song.AlbumID ch)
  /\ (jellyfin.Song.ImageTags_Primary ch <> "" ->
     mediaprovider.Track.CoverArtID t = jellyfin.Song.Id ch)
  /\ mediaprovider.Track.ParentID t = jellyfin.Song.AlbumID ch
  /\ mediaprovider.Track.AlbumID t = jellyfin.Song.AlbumID ch
  /\ (jellyfin.Song.MediaSources ch = [] ->
     mediaprovider.Track.FilePath t = ""
     /\ mediaprovider.Track.Size t = 0
     /\ mediaprovider.Track.BitRate t = 0)
  /\ (forall m rest,
     jellyfin.Song.MediaSources ch = m :: rest ->
     mediaprovider.Track.FilePath t = jellyfin.MediaSource.Path m
     /\ mediaprovider.Track.Size t = jellyfin.MediaSource.Size m
     /\ mediaprovider.Track.BitRate t = Z.quot (jellyfin.MediaSource.Bitrate m) 1000)
  /\ (forall a al,
     JellyfinProvider.toAlbum (Some a) = Ret (Some al) ->
     jellyfin.Album.ID a = jellyfin.Song.AlbumID ch ->
     mediaprovider.Track.AlbumID t = mediaprovider.Album.ID al
     /\ mediaprovider.Track.ParentID t = mediaprovider.Album.ID al
     /\ (jellyfin.Song.ImageTags_Primary ch = "" ->
         mediaprovider.Track.CoverArtID t = mediaprovider.Album.CoverArtID al)).
Proof.
  unfold JellyfinProvider.toTrack.
  destruct (JellyfinProvider.appendArtists _) as [ids names].
  destruct (String.eqb_spec (jellyfin.Song.ImageTags_Primary ch) "") as [Hp | Hp];
    destruct (jellyfin.Song.MediaSources ch) as [|m0 rest0];
    intros [= <-]; simpl; repeat split; try congruence;
    try (intros m rest [= <- <-]; auto; fail);
    revert H; unfold JellyfinProvider.toAlbum, JellyfinProvider.fillAlbum; simpl;
    destruct (JellyfinProvider.appendArtists _); intros [= <-]; simpl; congruence.
Qed.

Lemma toTrack_fallbacks_witness :
  exists t,
    JellyfinProvider.toTrack (Some GetFavoritesExample.song1) = Ret (Some t)
    /\ mediaprovider.Track.CoverArtID t = "al-1"
    /\ mediaprovider.Track.FilePath t = "".
Proof.
  destruct (AdapterFacts.toTrack_Some GetFavoritesExample.song1) as (t & Ht & _).
  destruct (toTrack_fallbacks GetFavoritesExample.song1 t Ht)
    as (Hcover & _ & _ & _ & Hnone & _).
  exists t. split; [exact Ht|]. split.
  - exact (Hcover eq_refl).
  - exact (proj1 (Hnone eq_refl)).
Defined.

Module FacadeFacts.
Import mediaprovider JellyfinProvider JellyfinFacade.

Section facts.
Variable nil_when_empty : bool -> bool.

(** [MapSlice] answers exactly when the map over the elements does, with
    the mapped elements. *)
Lemma MapSlice_Ret {A B} (ts : slice A) (f : A -> go B) r :
  sharedutil.MapSlice nil_when_empty ts f = Ret r ->
  go_map f (elems ts) = Ret (elems r).
Proof.
  unfold sharedutil.MapSlice. intros H. apply go_bind_Ret in H as (l & -> & H).
  injection H as <-. destruct l; [by destruct (nil_when_empty _) | reflexivity].
Qed.

Lemma MapSlice_defined {A B} (ts : slice A) (f : A -> go B) l :
  go_map f (elems ts) = Ret l ->
  exists r, sharedutil.MapSlice nil_when_empty ts f = Ret r /\ elems r = l.
Proof.
  unfold sharedutil.MapSlice. intros ->. simpl.
  eexists. split; [reflexivity|].
  destruct l; [by destruct (nil_when_empty _) | reflexivity].
Qed.

Lemma MapSlice_Panic {A B} (ts : slice A) (f : A -> go B) :
  sharedutil.MapSlice nil_when_empty ts f = Panic <-> go_map f (elems ts) = Panic.
Proof.
  unfold sharedutil.MapSlice. destruct (go_map f (elems ts)); simpl; split; done.
Qed.

Lemma go_map_songId l :
  (no_nil l -> go_map songId l = Ret (map jellyfin.Song.Id (records l)))
  /\ (~ no_nil l -> go_map songId l = Panic).
Proof.
  induction l as [|p l [IH1 IH2]]; split; simpl.
  - reflexivity.
  - intros H. destruct H. constructor.
  - intros H. apply Forall_cons in H as [[t ->] Hl]. simpl. by rewrite (IH1 Hl).
  - intros H. destruct p as [t|]; [|reflexivity]. simpl.
    rewrite IH2; [reflexivity|]. intros Hl. apply H. constructor; eauto.
Qed.

Lemma go_map_toTrack (l : list (ptr jellyfin.Song.t)) :
  exists r, go_map toTrack l = Ret r.
Proof.
  apply FavoritesPanics.go_map_total. intros [ch|]; [|eexists; reflexivity].
  destruct (AdapterFacts.toTrack_Some ch) as (t & -> & _). eauto.
Qed.

End facts.
End FacadeFacts.

(** X13.  [ReplacePlaylistTracks] is three requests in a fixed order, cut
    short by the first failure: the listing of the playlist; if it
    succeeded, the removal of the ids of all listed songs, in the order
    listed; if that succeeded too, the addition of the new ids.  The
    returned error is the one of the last request made, so that after a
    failed removal nothing is added.  It panics exactly when the successful
    listing holds a nil song. *)
Theorem ReplacePlaylistTracks_steps nil_when_empty b playlistID trackIDs log :
  let listing := JellyfinFacade.playlistSongs b log playlistID in
  let log1 := log ++ [JellyfinFacade.ReqGetPlaylistSongs playlistID] in
  let run :=
    JellyfinFacade.ReplacePlaylistTracks nil_when_empty b playlistID trackIDs log in
  (forall err log',
      run = Ret (err, log') ->
      (listing.2 <> None /\ err = listing.2 /\ log' = log1)
      \/ (listing.2 = None
          /\ exists ids,
              elems ids = map jellyfin.Song.Id (records (elems listing.1))
              /\ let removed := JellyfinFacade.removeSongs b log1 playlistID ids in
                 let log2 :=
                   log1 ++ [JellyfinFacade.ReqRemoveSongsFromPlaylist playlistID ids] in
                 (removed <> None /\ err = removed /\ log' = log2)
                 \/ (removed = None
                     /\ err = JellyfinFacade.addSongs b log2 playlistID trackIDs
                     /\ log' = log2
                          ++ [JellyfinFacade.ReqAddSongsToPlaylist playlistID trackIDs])))
  /\ (run = Panic <-> listing.2 = None /\ ~ no_nil (elems listing.1)).
Proof.
  intros listing log1 run. subst run.
  unfold JellyfinFacade.ReplacePlaylistTracks, JellyfinFacade.client_GetPlaylistSongs.
  fold listing log1. destruct listing as [trs [e|]] eqn:El; simpl.
  { split; [|split; [discriminate | intros [H _]; discriminate]].
    intros err log' [= <- <-]. left. auto. }
  destruct (FacadeFacts.go_map_songId (elems trs)) as [Hok Hnil].
  destruct (SearchPanics.no_nil_dec (elems trs)) as [Hl | Hl].
  - destruct (FacadeFacts.MapSlice_defined nil_when_empty trs JellyfinFacade.songId _
                (Hok Hl)) as (ids & -> & Hids).
    cbn [mbind go_mbind go_bind]. unfold JellyfinFacade.client_RemoveSongsFromPlaylist.
    split.
    + intros err log' Hrun. right. split; [reflexivity|]. exists ids.
      split; [exact Hids|]. simpl.
      destruct (JellyfinFacade.removeSongs b log1 playlistID ids) as [e|].
      * injection Hrun as <- <-. left. auto.
      * injection Hrun as <- <-. right. auto.
    + split; [|tauto].
      by destruct (JellyfinFacade.removeSongs b log1 playlistID ids).
  - rewrite (proj2 (FacadeFacts.MapSlice_Panic nil_when_empty trs JellyfinFacade.songId)
               (Hnil Hl)).
    split; [discriminate | tauto].
Qed.

(** X14.  [RemovePlaylistTracks] sends the ids of its entries, in order,
    in one removal request, and nothing of their indices: two lists with
    the same ids give the same request and the same result. *)
Theorem RemovePlaylistTracks_ids_only nil_when_empty b playlistID removeInfo log :
  let run := JellyfinFacade.RemovePlaylistTracks nil_when_empty b playlistID in
  (exists ids,
      elems ids = map JellyfinFacade.IDAndIndex.ID (elems removeInfo)
      /\ run removeInfo log
         = Ret (JellyfinFacade.removeSongs b log playlistID ids,
                log ++ [JellyfinFacade.ReqRemoveSongsFromPlaylist playlistID ids]))
  /\ (forall removeInfo',
      map JellyfinFacade.IDAndIndex.ID (elems removeInfo')
      = map JellyfinFacade.IDAndIndex.ID (elems removeInfo) ->
      is_nil removeInfo' = is_nil removeInfo ->
      run removeInfo' log = run removeInfo log).
Proof.
  intros run. subst run. unfold JellyfinFacade.RemovePlaylistTracks.
  unfold sharedutil.MapSlice. split.
  - rewrite (go_map_Ret JellyfinFacade.IDAndIndex.ID). cbn [mbind go_mbind go_bind].
    eexists. split; [|reflexivity].
    destruct (map _ (elems removeInfo)); [by destruct (nil_when_empty _) | reflexivity].
  - intros removeInfo' Hids Hnil.
    rewrite !(go_map_Ret JellyfinFacade.IDAndIndex.ID). by rewrite Hids, Hnil.
Qed.

(** X15.  [GetSimilarTracks] asks for one album of the artist and then for
    the songs similar to that album.  When the artist has no album it
    returns the nil list and no error without a second request; an error of
    either request is returned with the nil list; otherwise the tracks are
    the adapter applied to the similar songs.  It panics exactly when the
    first album of a successful answer is a nil record. *)
Theorem GetSimilarTracks_steps nil_when_empty b artistID limit log :
  let opts := JellyfinFacade.oneAlbumOpts artistID in
  let found := JellyfinFacade.albums b log opts in
  let log1 := log ++ [JellyfinFacade.ReqGetAlbums opts] in
  let run := JellyfinFacade.GetSimilarTracks nil_when_empty b artistID limit log in
  jellyfin.QueryOpts.Paging_Limit opts = 1
  /\ jellyfin.QueryOpts.Filter_ArtistID opts = artistID
  /\ (forall tracks err log',
      run = Ret ((tracks, err), log') ->
      (found.2 <> None /\ err = found.2 /\ tracks = None /\ log' = log1)
      \/ (found.2 = None /\ elems found.1 = []
          /\ err = None /\ tracks = None /\ log' = log1)
      \/ (found.2 = None
          /\ exists first rest,
              elems found.1 = Some first :: rest
              /\ let similar :=
                   JellyfinFacade.similarSongs b log1 (jellyfin.Album.ID first) limit in
                 log' = log1
                        ++ [JellyfinFacade.ReqGetSimilarSongs
                              (jellyfin.Album.ID first) limit]
                 /\ ((similar.2 <> None /\ err = similar.2 /\ tracks = None)
                     \/ (similar.2 = None /\ err = None
                         /\ go_map JellyfinProvider.toTrack (elems similar.1)
                            = Ret (elems tracks)))))
  /\ (run = Panic
      <-> found.2 = None /\ exists rest, elems found.1 = None :: rest).
Proof.
  intros opts found log1 run. split; [reflexivity|]. split; [reflexivity|].
  subst run. unfold JellyfinFacade.GetSimilarTracks, JellyfinFacade.client_GetAlbums.
  fold opts found log1. destruct found as [als [e|]] eqn:Ef; simpl.
  { split; [|split; [discriminate | intros [H _]; discriminate]].
    intros tracks err log' [= <- <- <-]. left. auto. }
  destruct (elems als) as [|[first|] rest] eqn:Eals; simpl.
  - split; [|split; [discriminate | intros [_ [r H]]; discriminate]].
    intros tracks err log' [= <- <- <-]. right. left. auto.
  - unfold JellyfinFacade.client_GetSimilarSongs.
    destruct (JellyfinFacade.similarSongs b log1 (jellyfin.Album.ID first) limit)
      as [tr [e|]] eqn:Es; simpl.
    + split; [|split; [discriminate | intros [_ [r H]]; discriminate]].
      intros tracks err log' [= <- <- <-]. right. right. split; [reflexivity|].
      exists first, rest. split; [reflexivity|]. rewrite Es. simpl.
      split; [reflexivity|]. left. auto.
    + destruct (FacadeFacts.go_map_toTrack (elems tr)) as [r Hr].
      destruct (FacadeFacts.MapSlice_defined nil_when_empty tr JellyfinProvider.toTrack
                  r Hr) as (tracks0 & -> & Hel).
      cbn [mbind go_mbind go_bind].
      split; [|split; [discriminate | intros [_ [r' H]]; discriminate]].
      intros tracks err log' [= <- <- <-]. right. right. split; [reflexivity|].
      exists first, rest. split; [reflexivity|]. rewrite Es. simpl.
      split; [reflexivity|]. right. rewrite Hel. auto.
  - split; [discriminate|]. split; [|reflexivity]. intros _.
    split; [reflexivity|]. eauto.
Qed.

(** X16.  [GetAlbum] asks for the album and then for the songs whose parent
    is the album.  An error of either request is returned with a nil
    result, and after a failed first request the second is not made.  With
    both answered it returns the album made by [fillAlbum] with the tracks
    made by [toTrack] of the songs, in order.  It panics exactly when both
    requests succeed and the album record is nil. *)
Theorem GetAlbum_steps nil_when_empty b albumID log :
  let header := JellyfinFacade.album b log albumID in
  let log1 := log ++ [JellyfinFacade.ReqGetAlbum albumID] in
  let opts := JellyfinFacade.parentOpts albumID in
  let listing := JellyfinFacade.songs b log1 opts in
  let log2 := log1 ++ [JellyfinFacade.ReqGetSongs opts] in
  let run := JellyfinFacade.GetAlbum nil_when_empty b albumID log in
  jellyfin.QueryOpts.Filter_ParentID opts = albumID
  /\ (forall res err log',
      run = Ret ((res, err), log') ->
      (header.2 <> None /\ err = header.2 /\ res = None /\ log' = log1)
      \/ (header.2 = None /\ listing.2 <> None
          /\ err = listing.2 /\ res = None /\ log' = log2)
      \/ (header.2 = None /\ listing.2 = None /\ err = None /\ log' = log2
          /\ exists album tracks,
              res = Some (JellyfinFacade.AlbumWithTracks.mk album tracks)
              /\ JellyfinProvider.fillAlbum header.1 mediaprovider.Album.zero
                 = Ret album
              /\ go_map JellyfinProvider.toTrack (elems listing.1)
                 = Ret (elems tracks)))
  /\ (run = Panic <-> header.2 = None /\ listing.2 = None /\ header.1 = None).
Proof.
  intros header log1 opts listing log2 run. split; [reflexivity|].
  subst run. unfold JellyfinFacade.GetAlbum, JellyfinFacade.client_GetAlbum.
  fold header log1. destruct header as [al [e|]] eqn:Eh; simpl.
  { split; [|split; [discriminate | intros [H _]; discriminate]].
    intros res err log' [= <- <- <-]. left. auto. }
  unfold JellyfinFacade.client_GetSongs. fold opts listing log2.
  destruct listing as [tr [e|]] eqn:El; simpl.
  { split; [|split; [discriminate | intros (_ & H & _); discriminate]].
    intros res err log' [= <- <- <-]. right. left. auto. }
  destruct al as [a|].
  - assert (exists album,
        JellyfinProvider.fillAlbum (Some a) mediaprovider.Album.zero = Ret album)
      as [album Ha].
    { unfold JellyfinProvider.fillAlbum. simpl.
      destruct (JellyfinProvider.appendArtists _). eauto. }
    destruct (FacadeFacts.go_map_toTrack (elems tr)) as [r Hr].
    destruct (FacadeFacts.MapSlice_defined nil_when_empty tr JellyfinProvider.toTrack
                r Hr) as (tracks0 & Htr & Hel).
    rewrite Ha, Htr. cbn [mbind go_mbind go_bind].
    split; [|split; [discriminate | intros (_ & _ & H); discriminate]].
    intros res err log' [= <- <- <-]. right. right. repeat (split; [reflexivity|]).
    exists album, tracks0. split; [reflexivity|]. split; [reflexivity|].
    by rewrite Hel.
  - simpl. split; [discriminate|]. split; auto.
Qed.

Module FacadeExample.
Import mediaprovider JellyfinProvider JellyfinFacade.

Definition song2 : jellyfin.Song.t :=
  jellyfin.Song.mk "tr-2" "Outro" "Blue" "al-1"
    [jellyfin.NameID.mk "Ann" "ar-1"]
    "" 987654321 2 1 1999 ["jazz"] GetFavoritesExample.userData [].

(** The playlist is listed only to a backend that has seen no request
    yet; every other request is answered. *)
Definition backend : Backend := {|
  playlistSongs := fun log _ =>
    match log with
    | [] => (Some [Some GetFavoritesExample.song1; Some song2], None)
    | _ :: _ => (None, Some "busy")
    end;
  removeSongs := fun _ _ _ => None;
  addSongs := fun _ _ _ => None;
  album := fun _ _ => (Some GetFavoritesExample.album1, None);
  songs := fun _ _ => (Some [Some GetFavoritesExample.song1; Some song2], None);
  albums := fun _ _ => (Some [Some GetFavoritesExample.album1], None);
  similarSongs := fun _ _ _ => (Some [Some song2], None)
|}.

Definition keep (b : bool) : bool := b.

Definition similar : slice (ptr Track.t) :=
  Eval vm_compute in
    match GetSimilarTracks keep backend "ar-1" 10 [] with
    | Ret ((tracks, _), _) => tracks
    | Panic => None
    end.

Definition blue : ptr AlbumWithTracks.t :=
  Eval vm_compute in
    match GetAlbum keep backend "al-1" [] with
    | Ret ((res, _), _) => res
    | Panic => None
    end.

End FacadeExample.

Lemma ReplacePlaylistTracks_steps_witness :
  exists ids,
    elems ids = ["tr-1"; "tr-2"]
    /\ [JellyfinFacade.ReqGetPlaylistSongs "pl-1";
        JellyfinFacade.ReqRemoveSongsFromPlaylist "pl-1" (Some ["tr-1"; "tr-2"]);
        JellyfinFacade.ReqAddSongsToPlaylist "pl-1" ["tr-9"]]
       = [JellyfinFacade.ReqGetPlaylistSongs "pl-1";
          JellyfinFacade.ReqRemoveSongsFromPlaylist "pl-1" ids;
          JellyfinFacade.ReqAddSongsToPlaylist "pl-1" ["tr-9"]].
Proof.
  destruct (proj1 (ReplacePlaylistTracks_steps FacadeExample.keep
                     FacadeExample.backend "pl-1" ["tr-9"] [])
              None
              [JellyfinFacade.ReqGetPlaylistSongs "pl-1";
               JellyfinFacade.ReqRemoveSongsFromPlaylist "pl-1" (Some ["tr-1"; "tr-2"]);
               JellyfinFacade.ReqAddSongsToPlaylist "pl-1" ["tr-9"]]
              eq_refl)
    as [[H _] | [_ (ids & Hids & [(H & _) | (_ & _ & Hlog)])]].
  - destruct H. reflexivity.
  - destruct H. reflexivity.
  - exists ids. split; [exact Hids | exact Hlog].
Defined.

Lemma RemovePlaylistTracks_ids_only_witness :
  JellyfinFacade.RemovePlaylistTracks FacadeExample.keep FacadeExample.backend "pl-1"
    (Some [JellyfinFacade.IDAndIndex.mk "tr-1" 4; JellyfinFacade.IDAndIndex.mk "tr-2" 0])
    []
  = JellyfinFacade.RemovePlaylistTracks FacadeExample.keep FacadeExample.backend "pl-1"
      (Some [JellyfinFacade.IDAndIndex.mk "tr-1" 0; JellyfinFacade.IDAndIndex.mk "tr-2" 1])
      [].
Proof.
  apply (proj2 (RemovePlaylistTracks_ids_only FacadeExample.keep FacadeExample.backend
                  "pl-1"
                  (Some [JellyfinFacade.IDAndIndex.mk "tr-1" 0;
                         JellyfinFacade.IDAndIndex.mk "tr-2" 1]) []));
    reflexivity.
Defined.

Lemma GetSimilarTracks_steps_witness :
  exists first,
    [JellyfinFacade.ReqGetAlbums (JellyfinFacade.oneAlbumOpts "ar-1");
     JellyfinFacade.ReqGetSimilarSongs "al-1" 10]
    = [JellyfinFacade.ReqGetAlbums (JellyfinFacade.oneAlbumOpts "ar-1");
       JellyfinFacade.ReqGetSimilarSongs (jellyfin.Album.ID first) 10].
Proof.
  destruct (proj1 (proj2 (proj2 (GetSimilarTracks_steps FacadeExample.keep
                                   FacadeExample.backend "ar-1" 10 [])))
              FacadeExample.similar None
              [JellyfinFacade.ReqGetAlbums (JellyfinFacade.oneAlbumOpts "ar-1");
               JellyfinFacade.ReqGetSimilarSongs "al-1" 10]
              eq_refl)
    as [(H & _) | [(_ & H & _) | (_ & first & rest & _ & Hlog & _)]].
  - destruct H. reflexivity.
  - discriminate H.
  - exists first. exact Hlog.
Defined.

Lemma GetAlbum_steps_witness :
  exists album tracks,
    FacadeExample.blue = Some (JellyfinFacade.AlbumWithTracks.mk album tracks)
    /\ JellyfinProvider.fillAlbum (Some GetFavoritesExample.album1)
         mediaprovider.Album.zero = Ret album.
Proof.
  destruct (proj1 (proj2 (GetAlbum_steps FacadeExample.keep FacadeExample.backend
                            "al-1" []))
              FacadeExample.blue None
              [JellyfinFacade.ReqGetAlbum "al-1";
               JellyfinFacade.ReqGetSongs (JellyfinFacade.parentOpts "al-1")]
              eq_refl)
    as [(H & _) | [(_ & H & _) | (_ & _ & _ & _ & album & tracks & Hres & Hal & _)]].
  - destruct H. reflexivity.
  - destruct H. reflexivity.
  - exists album, tracks. split; [exact Hres | exact Hal].
Defined.
